(** * Dashboard real-time client, list fetchers and job filtering

    A shallow embedding of the dashboard front end's logic:
    - [DashboardWebSocket] (lib/websocket.ts): connect / disconnect, the
      handler registry ([on], the detach closure, [emit]), the socket
      callbacks and the reconnect timer with its backoff;
    - [fetchJobs] / [fetchRecentQueries] (lib/api.ts);
    - the status filter of the Jobs page (pages/Jobs.tsx);
    together with a model of the job lifecycle engine that the specification
    describes. *)

From Stdlib Require Import ZArith Ascii String List Bool Lia.
From stdpp Require Import gmap strings list fin_maps.
Import ListNotations.

Local Open Scope string_scope.
Local Set Warnings "-register-all".

(* ===================================================================== *)
(** ** JavaScript values *)
(* ===================================================================== *)

(** The values that travel through the client: what [JSON.parse] and axios
    hand to the code.  A number is kept as its source lexeme; the code never
    computes with one. An object is its list of own properties, each key
    occurring once. *)
Inductive JSValue : Type :=
| JUndefined
| JNull
| JBool (b : bool)
| JNum (lexeme : string)
| JStr (s : string)
| JArr (items : list JSValue)
| JObj (fields : list (string * JSValue)).

Fixpoint obj_lookup (name : string) (fields : list (string * JSValue))
  : option JSValue :=
  match fields with
  | [] => None
  | (k, v) :: rest => if String.eqb k name then Some v else obj_lookup name rest
  end.

(** [o[name] = v] on an object literal under construction: an existing key
    keeps its place and takes the new value. *)
Fixpoint obj_set (name : string) (v : JSValue) (fields : list (string * JSValue))
  : list (string * JSValue) :=
  match fields with
  | [] => [(name, v)]
  | (k, x) :: rest =>
      if String.eqb k name then (k, v) :: rest else (k, x) :: obj_set name v rest
  end.

(** Property read [v.name], for the names the code reads ([type], [jobs],
    [queries]): none of them is inherited from a built-in prototype, so a
    primitive, an array or an object lacking the own property yields
    [undefined]. Reading a property of [null] or [undefined] throws a
    TypeError: [None]. *)
Definition get_prop (v : JSValue) (name : string) : option JSValue :=
  match v with
  | JUndefined | JNull => None
  | JObj fields =>
      Some (match obj_lookup name fields with Some x => x | None => JUndefined end)
  | _ => Some JUndefined
  end.


Definition isArray (v : JSValue) : bool :=
  match v with JArr _ => true | _ => false end.

(** [a ?? b] *)
Definition nullish (a b : JSValue) : JSValue :=
  match a with JUndefined | JNull => b | _ => a end.

(* ===================================================================== *)
(** ** JSON.parse *)
(* ===================================================================== *)

(** The platform's [JSON.parse] on a text frame, following the JSON grammar.
    [None] stands for the SyntaxError it throws. Strings are kept as bytes:
    a [\uXXXX] escape is stored in its UTF-8 form, and an escaped high
    surrogate followed at once by an escaped low surrogate is stored as the
    UTF-8 form of the one character the pair encodes, so that a character
    written with escapes and the same character sent raw give the same
    string, as they do in the language. *)
Module Json.

Definition is_ws (c : ascii) : bool :=
  match c with
  | " "%char | "009"%char | "010"%char | "013"%char => true
  | _ => false
  end.

Fixpoint skip_ws (s : string) : string :=
  match s with
  | String c r => if is_ws c then skip_ws r else s
  | EmptyString => s
  end.

Definition is_digit (c : ascii) : bool :=
  let n := nat_of_ascii c in (48 <=? n)%nat && (n <=? 57)%nat.

Definition hex_val (c : ascii) : option N :=
  let n := N_of_ascii c in
  if ((48 <=? n) && (n <=? 57))%N then Some (n - 48)%N
  else if ((65 <=? n) && (n <=? 70))%N then Some (n - 55)%N
  else if ((97 <=? n) && (n <=? 102))%N then Some (n - 87)%N
  else None.

(** The code unit four hexadecimal digits spell. *)
Definition hex4 (h1 h2 h3 h4 : ascii) : option N :=
  match hex_val h1, hex_val h2, hex_val h3, hex_val h4 with
  | Some a, Some b, Some c, Some d => Some (((a * 16 + b) * 16 + c) * 16 + d)%N
  | _, _, _, _ => None
  end.

(** UTF-8 bytes of a UTF-16 code unit. *)
Definition utf8 (n : N) (tail : string) : string :=
  if (n <? 128)%N then String (ascii_of_N n) tail
  else if (n <? 2048)%N then
    String (ascii_of_N (192 + n / 64)) (String (ascii_of_N (128 + n mod 64)) tail)
  else
    String (ascii_of_N (224 + n / 4096))
      (String (ascii_of_N (128 + (n / 64) mod 64))
         (String (ascii_of_N (128 + n mod 64)) tail)).

Definition is_high_surrogate (n : N) : bool := ((55296 <=? n) && (n <=? 56319))%N.
Definition is_low_surrogate (n : N) : bool := ((56320 <=? n) && (n <=? 57343))%N.

(** UTF-8 bytes of the character a surrogate pair encodes. *)
Definition utf8_pair (hi lo : N) (tail : string) : string :=
  let cp := (65536 + (hi - 55296) * 1024 + (lo - 56320))%N in
  String (ascii_of_N (240 + cp / 262144))
    (String (ascii_of_N (128 + (cp / 4096) mod 64))
       (String (ascii_of_N (128 + (cp / 64) mod 64))
          (String (ascii_of_N (128 + cp mod 64)) tail))).

(** The characters after an opening quote, up to the closing one. *)
Fixpoint string_body (s : string) : option (string * string) :=
  match s with
  | EmptyString => None
  | String c r =>
      if Ascii.eqb c "034"%char then Some (EmptyString, r)
      else if Ascii.eqb c "\"%char then
        match r with
        | EmptyString => None
        | String e r1 =>
            let simple (x : ascii) :=
              match string_body r1 with
              | Some (v, rest) => Some (String x v, rest)
              | None => None
              end in
            match e with
            | "034"%char => simple "034"%char
            | "\"%char => simple "\"%char
            | "/"%char => simple "/"%char
            | "b"%char => simple "008"%char
            | "f"%char => simple "012"%char
            | "n"%char => simple "010"%char
            | "r"%char => simple "013"%char
            | "t"%char => simple "009"%char
            | "u"%char =>
                match r1 with
                | String h1 (String h2 (String h3 (String h4 r2))) =>
                    match hex4 h1 h2 h3 h4 with
                    | Some unit =>
                        let single :=
                          match string_body r2 with
                          | Some (v, rest) => Some (utf8 unit v, rest)
                          | None => None
                          end in
                        match r2 with
                        | String "\"%char (String "u"%char
                            (String l1 (String l2 (String l3 (String l4 r3))))) =>
                            match hex4 l1 l2 l3 l4 with
                            | Some low =>
                                if is_high_surrogate unit && is_low_surrogate low
                                then
                                  match string_body r3 with
                                  | Some (v, rest) =>
                                      Some (utf8_pair unit low v, rest)
                                  | None => None
                                  end
                                else single
                            | None => single
                            end
                        | _ => single
                        end
                    | None => None
                    end
                | _ => None
                end
            | _ => None
            end
        end
      else if (nat_of_ascii c <? 32)%nat then None
      else
        match string_body r with
        | Some (v, rest) => Some (String c v, rest)
        | None => None
        end
  end.

Fixpoint digits (s : string) : string * string :=
  match s with
  | String c r =>
      if is_digit c then let '(d, rest) := digits r in (String c d, rest)
      else (EmptyString, s)
  | EmptyString => (EmptyString, s)
  end.

(** A number lexeme: an optional minus sign, an integer part without a
    leading zero (or a single zero), an optional fraction, an optional
    exponent. *)
Definition number (s : string) : option (string * string) :=
  let '(sign, s1) :=
    match s with
    | String "-"%char r => ("-", r)
    | _ => (EmptyString, s)
    end in
  let '(int, s2) := digits s1 in
  let int_ok :=
    match int with
    | EmptyString => false
    | String "0"%char (String _ _) => false
    | _ => true
    end in
  if negb int_ok then None else
  let frac :=
    match s2 with
    | String "."%char r =>
        let '(f, s3) := digits r in
        match f with
        | EmptyString => None
        | _ => Some ("." ++ f, s3)
        end
    | _ => Some (EmptyString, s2)
    end in
  match frac with
  | None => None
  | Some (f, s3) =>
      match s3 with
      | String e r =>
          if Ascii.eqb e "e"%char || Ascii.eqb e "E"%char then
            let '(esign, r1) :=
              match r with
              | String "+"%char r' => ("+", r')
              | String "-"%char r' => ("-", r')
              | _ => (EmptyString, r)
              end in
            let '(ex, s4) := digits r1 in
            match ex with
            | EmptyString => None
            | _ => Some (sign ++ int ++ f ++ String e esign ++ ex, s4)
            end
          else Some (sign ++ int ++ f, s3)
      | EmptyString => Some (sign ++ int ++ f, s3)
      end
  end.

Definition literal (word : string) (v : JSValue) (s : string)
  : option (JSValue * string) :=
  if String.prefix word s
  then Some (v, String.substring (String.length word)
                  (String.length s - String.length word) s)
  else None.

Fixpoint value (fuel : nat) (s : string) : option (JSValue * string) :=
  match fuel with
  | O => None
  | S f =>
      match skip_ws s with
      | EmptyString => None
      | String c r as s' =>
          if Ascii.eqb c "n"%char then literal "null" JNull s'
          else if Ascii.eqb c "t"%char then literal "true" (JBool true) s'
          else if Ascii.eqb c "f"%char then literal "false" (JBool false) s'
          else if Ascii.eqb c "034"%char then
            match string_body r with
            | Some (v, rest) => Some (JStr v, rest)
            | None => None
            end
          else if Ascii.eqb c "["%char then
            match skip_ws r with
            | String "]"%char rest => Some (JArr [], rest)
            | _ =>
                match elements f r with
                | Some (vs, rest) => Some (JArr vs, rest)
                | None => None
                end
            end
          else if Ascii.eqb c "{"%char then
            match skip_ws r with
            | String "}"%char rest => Some (JObj [], rest)
            | _ =>
                match members f [] r with
                | Some (fs, rest) => Some (JObj fs, rest)
                | None => None
                end
            end
          else
            match number s' with
            | Some (n, rest) => Some (JNum n, rest)
            | None => None
            end
      end
  end
with elements (fuel : nat) (s : string) : option (list JSValue * string) :=
  match fuel with
  | O => None
  | S f =>
      match value f s with
      | None => None
      | Some (v, rest) =>
          match skip_ws rest with
          | String ","%char r =>
              match elements f r with
              | Some (vs, rest') => Some (v :: vs, rest')
              | None => None
              end
          | String "]"%char r => Some ([v], r)
          | _ => None
          end
      end
  end
with members (fuel : nat) (acc : list (string * JSValue)) (s : string)
  : option (list (string * JSValue) * string) :=
  match fuel with
  | O => None
  | S f =>
      match skip_ws s with
      | String "034"%char r =>
          match string_body r with
          | None => None
          | Some (k, r1) =>
              match skip_ws r1 with
              | String ":"%char r2 =>
                  match value f r2 with
                  | None => None
                  | Some (v, rest) =>
                      let acc' := obj_set k v acc in
                      match skip_ws rest with
                      | String ","%char r3 => members f acc' r3
                      | String "}"%char r3 => Some (acc', r3)
                      | _ => None
                      end
                  end
              | _ => None
              end
          end
      | _ => None
      end
  end.

(** Every call of [value] consumes a character before it recurses and
    [elements] / [members] spend one unit to reach [value], so twice the
    length of the text is enough fuel. *)
Definition parse (text : string) : option JSValue :=
  match value (2 * String.length text + 2) text with
  | Some (v, rest) =>
      match skip_ws rest with
      | EmptyString => Some v
      | _ => None
      end
  | None => None
  end.

End Json.

Definition JSON_parse : string -> option JSValue := Json.parse.

(** Sample wire texts are written with ['] where the frame has a double
    quote. *)
Fixpoint wire (s : string) : string :=
  match s with
  | EmptyString => EmptyString
  | String c r => String (if Ascii.eqb c "'"%char then "034"%char else c) (wire r)
  end.

(* ===================================================================== *)
(** ** DashboardWebSocket: state *)
(* ===================================================================== *)

(** A message handler is a function object; the registry compares handlers
    by identity, which a number stands for here. *)
Definition handler := nat.

Inductive ReadyState := CONNECTING | OPEN | CLOSING | CLOSED.

(** The private fields of the [DashboardWebSocket] instance, followed by the
    part of the page the instance acts on: the [WebSocket] objects it has
    constructed ([ws] holds an index into [sockets]), the timeouts it has set
    that have neither fired nor been cleared, and a record of every handler
    invocation (the registry key, the handler, the argument).

    [handlers] is the [Map<string, Set<MessageHandler>>]. A [Set] keeps its
    entries in insertion order; [delete] empties the entry in place ([None])
    and [forEach] walks the entry list as it stands at each step, which is
    how the language defines iteration over a set that changes under it.

    [setTimeout] returns a positive integer, so a stored timer id is truthy. *)
Record World := mkWorld {
  ws : option nat;
  handlers : gmap string (list (option handler));
  reconnectTimer : option positive;
  reconnectDelay : Z;
  sockets : list ReadyState;
  timers : list (positive * Z);
  nextTimer : positive;
  calls : list (string * handler * JSValue);
}.

Definition maxReconnectDelay : Z := 30000.
Definition initialReconnectDelay : Z := 1000.

Definition with_ws (x : option nat) (w : World) : World :=
  mkWorld x (handlers w) (reconnectTimer w) (reconnectDelay w)
          (sockets w) (timers w) (nextTimer w) (calls w).
Definition with_handlers (x : gmap string (list (option handler))) (w : World) : World :=
  mkWorld (ws w) x (reconnectTimer w) (reconnectDelay w)
          (sockets w) (timers w) (nextTimer w) (calls w).
Definition with_reconnectTimer (x : option positive) (w : World) : World :=
  mkWorld (ws w) (handlers w) x (reconnectDelay w)
          (sockets w) (timers w) (nextTimer w) (calls w).
Definition with_reconnectDelay (x : Z) (w : World) : World :=
  mkWorld (ws w) (handlers w) (reconnectTimer w) x
          (sockets w) (timers w) (nextTimer w) (calls w).
Definition with_sockets (x : list ReadyState) (w : World) : World :=
  mkWorld (ws w) (handlers w) (reconnectTimer w) (reconnectDelay w)
          x (timers w) (nextTimer w) (calls w).
Definition with_timers (x : list (positive * Z)) (w : World) : World :=
  mkWorld (ws w) (handlers w) (reconnectTimer w) (reconnectDelay w)
          (sockets w) x (nextTimer w) (calls w).
Definition with_nextTimer (x : positive) (w : World) : World :=
  mkWorld (ws w) (handlers w) (reconnectTimer w) (reconnectDelay w)
          (sockets w) (timers w) x (calls w).
Definition with_calls (x : list (string * handler * JSValue)) (w : World) : World :=
  mkWorld (ws w) (handlers w) (reconnectTimer w) (reconnectDelay w)
          (sockets w) (timers w) (nextTimer w) x.

(** [new DashboardWebSocket()] on a fresh page. *)
Definition initial : World :=
  mkWorld None ∅ None initialReconnectDelay [] [] 1%positive [].

(** How a call ends. [OutOfFuel] marks a [forEach] cut short by the bound
    of the model; the program itself would still be running. *)
Inductive Completion := Normal | Thrown | OutOfFuel.

(* --------------------------------------------------------------------- *)
(** *** The platform: [Set], timers, sockets *)

Definition Set_add (h : handler) (entries : list (option handler))
  : list (option handler) :=
  if bool_decide (Some h ∈ entries) then entries else entries ++ [Some h].

Definition Set_delete (h : handler) (entries : list (option handler))
  : list (option handler) :=
  (fun x => if decide (x = Some h) then None else x) <$> entries.

(** The handlers a [forEach] over an unchanging set visits, in order. *)
Definition live (entries : list (option handler)) : list handler :=
  omap id entries.

Definition setTimeout (delay : Z) (w : World) : positive * World :=
  let id := nextTimer w in
  (id, with_nextTimer (Pos.succ id) (with_timers (timers w ++ [(id, delay)]) w)).

Definition clearTimeout (id : positive) (w : World) : World :=
  with_timers (filter (fun t => t.1 ≠ id) (timers w)) w.

Definition pending (id : positive) (w : World) : bool :=
  bool_decide (id ∈ (timers w).*1).

(** [socket.close()]: starts the closing handshake unless the socket is
    already closing or closed. *)
Definition socket_close (s : nat) (w : World) : World :=
  match sockets w !! s with
  | Some CONNECTING | Some OPEN => with_sockets (<[s := CLOSING]> (sockets w)) w
  | _ => w
  end.

Definition set_readyState (s : nat) (r : ReadyState) (w : World) : World :=
  with_sockets (<[s := r]> (sockets w)) w.

(* --------------------------------------------------------------------- *)
(** *** Methods that do not dispatch *)

(** [this.ws?.readyState === WebSocket.OPEN] *)
Definition ws_is_open (w : World) : bool :=
  match ws w with
  | Some s => match sockets w !! s with Some OPEN => true | _ => false end
  | None => false
  end.

Definition scheduleReconnect (w : World) : World :=
  match reconnectTimer w with
  | Some _ => w
  | None =>
      let '(id, w1) := setTimeout (reconnectDelay w) w in
      with_reconnectTimer (Some id) w1
  end.

(** [ctor_ok] tells whether [new WebSocket(this.url)] returns; it throws on
    a URL it cannot parse, which the [catch] turns into a scheduled retry.
    The four callbacks assigned to the new socket are [ws_onopen],
    [ws_onmessage], [ws_onclose] and [ws_onerror] below. *)
Definition connect (ctor_ok : bool) (w : World) : World :=
  if ws_is_open w then w
  else if ctor_ok then
    with_ws (Some (length (sockets w))) (with_sockets (sockets w ++ [CONNECTING]) w)
  else scheduleReconnect w.

Definition disconnect (w : World) : World :=
  let w1 :=
    match reconnectTimer w with
    | Some id => with_reconnectTimer None (clearTimeout id w)
    | None => w
    end in
  let w2 :=
    match ws w1 with
    | Some s => socket_close s w1
    | None => w1
    end in
  with_ws None w2.

(** The closure handed to [setTimeout] by [scheduleReconnect]. *)
Definition reconnect_callback (ctor_ok : bool) (w : World) : World :=
  let w1 := with_reconnectTimer None w in
  let w2 := with_reconnectDelay
              (Z.min (reconnectDelay w1 * 2) maxReconnectDelay) w1 in
  connect ctor_ok w2.

(** [on(event, handler)]. The [!] after [get] is erased when the file is
    compiled: were the entry missing, [add] would be called on [undefined]
    and throw. The value returned to the caller is the closure [detach]. *)
Definition on (event : string) (h : handler) (w : World) : World * Completion :=
  let w1 :=
    match handlers w !! event with
    | Some _ => w
    | None => with_handlers (<[event := []]> (handlers w)) w
    end in
  match handlers w1 !! event with
  | Some entries =>
      (with_handlers (<[event := Set_add h entries]> (handlers w1)) w1, Normal)
  | None => (w1, Thrown)
  end.

(** [() => this.handlers.get(event)?.delete(handler)] *)
Definition detach (event : string) (h : handler) (w : World) : World :=
  match handlers w !! event with
  | Some entries => with_handlers (<[event := Set_delete h entries]> (handlers w)) w
  | None => w
  end.

(* --------------------------------------------------------------------- *)
(** *** Dispatch *)

(** What a handler does to the client when it runs: the calls it makes on
    the public interface, in order, possibly ending in an exception. *)
Inductive Cmd :=
| CallOn (event : string) (h : handler)
| CallDetach (event : string) (h : handler)
| CallConnect (ctor_ok : bool)
| CallDisconnect
| Throw.

Definition connection_event (connected : bool) : JSValue :=
  JObj [("type", JStr "metrics_update");
        ("data", JObj [("connected", JBool connected)])].

Section Client.

(** The body of each handler, by the message it is called with. *)
Variable body : handler -> JSValue -> list Cmd.

Definition run_cmd (c : Cmd) (w : World) : World * Completion :=
  match c with
  | CallOn e h => on e h w
  | CallDetach e h => (detach e h w, Normal)
  | CallConnect ok => (connect ok w, Normal)
  | CallDisconnect => (disconnect w, Normal)
  | Throw => (w, Thrown)
  end.

Fixpoint run_script (cs : list Cmd) (w : World) : World * Completion :=
  match cs with
  | [] => (w, Normal)
  | c :: rest =>
      let '(w1, r) := run_cmd c w in
      match r with
      | Normal => run_script rest w1
      | _ => (w1, r)
      end
  end.

(** [handler(data)], called by [emit] for the registry key [event]. *)
Definition invoke (event : string) (h : handler) (data : JSValue) (w : World)
  : World * Completion :=
  run_script (body h data) (with_calls (calls w ++ [(event, h, data)]) w).

(** [set.forEach((handler) => handler(data))] from entry [i] on. The set is
    the one stored under [event]: the map never drops or replaces a set, so
    reading it again at each step yields the object [emit] started with. *)
Fixpoint forEach (fuel : nat) (event : string) (data : JSValue) (i : nat)
    (w : World) : World * Completion :=
  match fuel with
  | O => (w, OutOfFuel)
  | S f =>
      match handlers w !! event with
      | None => (w, Normal)
      | Some entries =>
          match entries !! i with
          | None => (w, Normal)
          | Some None => forEach f event data (S i) w
          | Some (Some h) =>
              let '(w1, r) := invoke event h data w in
              match r with
              | Normal => forEach f event data (S i) w1
              | _ => (w1, r)
              end
          end
      end
  end.

(** [emit(event, data)]. The registry only has string keys ([on] takes a
    string), so [get] misses for any other value of [event]. *)
Definition emit (fuel : nat) (event : JSValue) (data : JSValue) (w : World)
  : World * Completion :=
  match event with
  | JStr e => forEach fuel e data 0 w
  | _ => (w, Normal)
  end.

(* --------------------------------------------------------------------- *)
(** *** The socket callbacks *)

Definition ws_onopen (fuel : nat) (w : World) : World * Completion :=
  emit fuel (JStr "connection") (connection_event true)
       (with_reconnectDelay 1000 w).

(** [event.data] is the text of the frame. Both the SyntaxError of
    [JSON.parse] and whatever else is thrown inside the [try] (reading
    [type] of [null], an exception from a handler) end in the empty
    [catch]. *)
Definition ws_onmessage (fuel : nat) (data : string) (w : World)
  : World * Completion :=
  match JSON_parse data with
  | None => (w, Normal)
  | Some message =>
      match get_prop message "type" with
      | None => (w, Normal)
      | Some ty =>
          let '(w1, r1) := emit fuel ty message w in
          match r1 with
          | Normal =>
              let '(w2, r2) := emit fuel (JStr "*") message w1 in
              match r2 with
              | Thrown => (w2, Normal)
              | _ => (w2, r2)
              end
          | Thrown => (w1, Normal)
          | OutOfFuel => (w1, OutOfFuel)
          end
      end
  end.

(** An exception escaping [emit] ends the callback before
    [scheduleReconnect] is reached. *)
Definition ws_onclose (fuel : nat) (w : World) : World * Completion :=
  let '(w1, r) := emit fuel (JStr "connection") (connection_event false) w in
  match r with
  | Normal => (scheduleReconnect w1, Normal)
  | _ => (w1, r)
  end.

Definition ws_onerror (w : World) : World :=
  match ws w with
  | Some s => socket_close s w
  | None => w
  end.

(* --------------------------------------------------------------------- *)
(** *** Everything that can happen to the client *)

(** Calls of the public methods by the page, events of the sockets the
    client has constructed, and the firing of a pending timeout. A socket
    opens once, while connecting; it delivers messages while open or
    closing; it closes once. An event that cannot occur in the state at hand
    leaves it as it is. An exception that escapes a socket callback is
    reported by the event loop and goes no further. *)
Inductive Event :=
| Connect (ctor_ok : bool)
| Disconnect
| On (event : string) (h : handler)
| Detach (event : string) (h : handler)
| SockOpen (s : nat)
| SockMessage (s : nat) (data : string)
| SockError (s : nat)
| SockClose (s : nat)
| TimerFire (id : positive) (ctor_ok : bool).

Definition step (fuel : nat) (ev : Event) (w : World) : World :=
  match ev with
  | Connect ok => connect ok w
  | Disconnect => disconnect w
  | On e h => (on e h w).1
  | Detach e h => detach e h w
  | SockOpen s =>
      match sockets w !! s with
      | Some CONNECTING => (ws_onopen fuel (set_readyState s OPEN w)).1
      | _ => w
      end
  | SockMessage s data =>
      match sockets w !! s with
      | Some OPEN | Some CLOSING => (ws_onmessage fuel data w).1
      | _ => w
      end
  | SockError s =>
      match sockets w !! s with
      | Some _ => ws_onerror w
      | None => w
      end
  | SockClose s =>
      match sockets w !! s with
      | Some CLOSED | None => w
      | Some _ => (ws_onclose fuel (set_readyState s CLOSED w)).1
      end
  | TimerFire id ok =>
      if pending id w then reconnect_callback ok (clearTimeout id w) else w
  end.

Fixpoint run (fuel : nat) (evs : list Event) (w : World) : World :=
  match evs with
  | [] => w
  | ev :: rest => run fuel rest (step fuel ev w)
  end.

End Client.

(* --------------------------------------------------------------------- *)
(** *** Runs of failed connection attempts *)

(** A handler that never calls back into the client and never throws. *)
Definition passive (body : handler -> JSValue -> list Cmd) : Prop :=
  forall h data, body h data = [].

Definition quiet : handler -> JSValue -> list Cmd := fun _ _ => [].

(** The bound lets a [forEach] reach the end of any set of the registry. *)
Definition enough (fuel : nat) (w : World) : Prop :=
  forall event, length (default [] (handlers w !! event)) < fuel.

(** The handlers registered under a key, in the order [forEach] visits
    them. *)
Definition registered (event : string) (w : World) : list handler :=
  match handlers w !! event with
  | Some entries => live entries
  | None => []
  end.

(** The invocations that deliver [data] to the handlers [hs] under the key
    [event]. *)
Definition deliveries (event : string) (data : JSValue) (hs : list handler)
  : list (string * handler * JSValue) :=
  (fun h => (event, h, data)) <$> hs.


(** A client with a connection that is open: the page has called [connect]
    and the socket has opened. *)
Definition open_client : World :=
  run quiet 1 [Connect true; SockOpen 0] initial.

(** A page with handler 7 subscribed to every kind and handler 8 to the
    link status, whose connection then opens. *)
Definition wildcard_and_status_subscribers : list Event :=
  [On "*" 7; On "connection" 8; Connect true; SockOpen 0].


(** Handler 8 throws whenever it is called; the others are passive. *)
Definition handler_8_throws : handler -> JSValue -> list Cmd :=
  fun h _ => if Nat.eqb h 8 then [Throw] else [].

Definition job_update_frame : string :=
  wire "{'type':'job_update','data':{'id':'j1','status':'processing'}}".

Definition job_update_message : JSValue :=
  JObj [("type", JStr "job_update");
        ("data", JObj [("id", JStr "j1"); ("status", JStr "processing")])].

(** The pending timeouts are exactly the one whose id [reconnectTimer]
    holds, if it holds one. *)
Definition timer_tracked (w : World) : Prop :=
  (timers w).*1 = option_list (reconnectTimer w).



(** How many times [h] has been invoked for the key [event]. *)
Definition invoked (event : string) (h : handler) (w : World) : nat :=
  length (filter (fun c => c.1.1 = event /\ c.1.2 = h) (calls w)).

(** [h] is not in the set stored under [event]. *)
Definition gone (event : string) (h : handler) (w : World) : Prop :=
  forall entries, handlers w !! event = Some entries -> Some h ∉ entries.

(** [h] is not subscribed to [event] and has been invoked [n] times for
    it. *)
Definition detached (event : string) (h : handler) (n : nat) (w : World) : Prop :=
  gone event h w /\ invoked event h w = n.

(** The handlers do nothing to the client but call detach functions. *)
Definition only_detaches (body : handler -> JSValue -> list Cmd) : Prop :=
  forall h data, Forall (fun c => exists e h', c = CallDetach e h') (body h data).

(** [l'] is the entry list [l] with some entries emptied. *)
Definition erasure (l l' : list (option handler)) : Prop :=
  Forall2 (fun x x' => x' = x \/ x' = None) l l'.

(** The registry of [w'] is that of [w] with entries emptied; the record of
    invocations is the same. *)
Definition shrunk (w w' : World) : Prop :=
  calls w' = calls w /\
  forall e entries, handlers w !! e = Some entries ->
    exists entries', handlers w' !! e = Some entries' /\ erasure entries entries'.

(** Handler 1 unsubscribes itself and handler 2 from job updates when it
    runs; the others are passive. *)
Definition handler_1_detaches : handler -> JSValue -> list Cmd :=
  fun h _ =>
    if Nat.eqb h 1
    then [CallDetach "job_update" 1; CallDetach "job_update" 2]
    else [].

(** Handlers 1, 2 and 3 subscribed to job updates, on an open connection. *)
Definition three_job_subscribers : World :=
  run handler_1_detaches 5
    [On "job_update" 1; On "job_update" 2; On "job_update" 3;
     Connect true; SockOpen 0] initial.


(** The connection of the socket held in [ws] fails or is lost: the browser
    fires [error], then [close], on it. *)
Definition socket_fails (body : handler -> JSValue -> list Cmd) (fuel : nat)
    (w : World) : World :=
  match ws w with
  | Some s => run body fuel [SockError s; SockClose s] w
  | None => w
  end.

(** The reconnect timeout held in [reconnectTimer] fires. *)
Definition timer_fires (body : handler -> JSValue -> list Cmd) (fuel : nat)
    (ctor_ok : bool) (w : World) : World :=
  match reconnectTimer w with
  | Some id => step body fuel (TimerFire id ctor_ok) w
  | None => w
  end.


(** The pending timer fires and the attempt it makes fails. *)
Definition failing_retry (body : handler -> JSValue -> list Cmd)
    (fuel : nat) (throws : bool) (w : World) : World :=
  if throws then timer_fires body fuel false w
  else socket_fails body fuel (timer_fires body fuel true w).

Fixpoint failing_retries (body : handler -> JSValue -> list Cmd)
    (fuel : nat) (hows : list bool) (w : World) : World :=
  match hows with
  | [] => w
  | throws :: rest =>
      failing_retries body fuel rest (failing_retry body fuel throws w)
  end.

(** The delays of the timeouts that are pending. *)
Definition pending_delays (w : World) : list Z := (timers w).*2.

(** The delay the specification's formula gives after [n] failed attempts. *)
Definition spec_delay (n : nat) : Z :=
  Z.min (initialReconnectDelay * 2 ^ Z.of_nat n) maxReconnectDelay.

(* ===================================================================== *)
(** ** The list fetchers (lib/api.ts) *)
(* ===================================================================== *)

(** [data] is the body of the response as axios delivers it. [None] stands
    for the TypeError of reading a property of [null] or [undefined], which
    rejects the promise. *)
Definition fetchRecentQueries (data : JSValue) : option JSValue :=
  if isArray data then Some data
  else
    match get_prop data "queries" with
    | Some field => Some (nullish field (JArr []))
    | None => None
    end.

Definition fetchJobs (data : JSValue) : option JSValue :=
  if isArray data then Some data
  else
    match get_prop data "jobs" with
    | Some field => Some (nullish field (JArr []))
    | None => None
    end.

(* ===================================================================== *)
(** ** The Jobs page (pages/Jobs.tsx) *)
(* ===================================================================== *)

(** The [IndexingJob] snapshot of lib/api.ts. The status is the string the
    server sent. *)
Record IndexingJob := mkIndexingJob {
  id : string;
  source_type : string;
  source_url : string;
  status : string;
  total_files : Z;
  processed_files : Z;
  failed_files : Z;
  current_file : string;
  progress_percent : Z;
  started_at : string;
  completed_at : option string;
  error_message : option string;
  metadata : JSValue;
}.

Definition STATUS_OPTIONS : list string :=
  ["all"; "pending"; "processing"; "completed"; "failed"; "cancelled"].

(** [jobs.filter((j) => { if (statusFilter === "all") return true;
                          return j.status === statusFilter; })] *)
Definition filtered (statusFilter : string) (jobs : list IndexingJob)
  : list IndexingJob :=
  List.filter
    (fun j => if String.eqb statusFilter "all" then true
              else String.eqb (status j) statusFilter)
    jobs.

(** The three jobs the page shows before the first fetch, with the
    timestamps left out. *)
Definition FALLBACK_JOBS : list IndexingJob :=
  [ mkIndexingJob "j1" "github" "https://github.com/yung-megafone/Epstein-Files"
      "processing" 1000 650 45 "flight_logs_volume_2.pdf" 65 EmptyString None None
      (JObj [("name", JStr "Epstein-Files Dataset")]);
    mkIndexingJob "j2" "upload" "/uploads/batch_2024_01_15"
      "completed" 42 42 0 EmptyString 100 EmptyString (Some EmptyString) None
      (JObj [("name", JStr "User Uploads (batch_2024_01_15)")]);
    mkIndexingJob "j3" "local" "/data/legal_docs"
      "failed" 200 124 76 EmptyString 62 EmptyString None
      (Some "PDF parsing failed for encrypted documents")
      (JObj [("name", JStr "Legal Documents Collection")]) ].

(* ===================================================================== *)
(** ** The job lifecycle engine *)
(* ===================================================================== *)

Module JobEngine.

(** Modelled from the spec: the job record of the lifecycle engine (the
    engine runs in the back end, whose code is not part of these sources).
    Fields as in section 3 of the specification. *)
Inductive Status := pending | processing | completed | failed | cancelled.

(** Modelled from the spec: the fields of a job of the engine: identity and
    source (kind, location), status, counters, the file in progress, the
    time stamps, the error message and the descriptive metadata. *)
Record Job := mkJob {
  id : string;
  source : string * string;
  status : Status;
  total_files : Z;
  processed_files : Z;
  failed_files : Z;
  current_file : option string;
  started_at : option Z;
  completed_at : option Z;
  error_message : option string;
  metadata : list (string * string);
}.

(** Modelled from the spec: what a mutating call of the engine returns. *)
Inductive Result := accepted | rejected (reason : string).

(** Modelled from the spec: the terminal statuses of the engine's state
    machine, [completed], [failed] and [cancelled]. *)
Definition terminal (s : Status) : bool :=
  match s with
  | completed | failed | cancelled => true
  | pending | processing => false
  end.

(** Modelled from the spec: the engine's [progress_percent] (section 4.3):
    with no files, 100 for a terminal job and 0 otherwise; else the floor of
    the accounted share, clamped to 0..100. *)
Definition progress_percent (j : Job) : Z :=
  if (total_files j =? 0)%Z then (if terminal (status j) then 100 else 0)%Z
  else Z.max 0 (Z.min 100
         (100 * (processed_files j + failed_files j) / total_files j)).

(** Modelled from the spec: the engine's state, the job store and the
    [job_updated] snapshots published so far, oldest first. *)
Record Engine := mkEngine {
  store : gmap string Job;
  published : list Job;
}.

(** Modelled from the spec: an accepted transition of the engine is
    persisted, then published as a full snapshot. *)
Definition commit (jid : string) (j : Job) (e : Engine) : Engine * Result :=
  (mkEngine (<[jid := j]> (store e)) (published e ++ [j]), accepted).

(** Modelled from the spec: the engine's [createJob], which stores a new
    [pending] job. *)
Definition createJob (now : Z) (jid : string) (src : string * string)
    (total : Z) (e : Engine) : Engine * Result :=
  match store e !! jid with
  | Some _ => (e, rejected "job exists")
  | None =>
      commit jid (mkJob jid src pending total 0 0 None None None None []) e
  end.

(** Modelled from the spec: the engine's [reportProgress] on one job. The
    counts are cumulative; a report on a terminal job, with a count below
    the stored one, or with more files than the job has, is rejected. The
    first accepted report moves [pending] to [processing] and sets
    [started_at]. *)
Definition report (now : Z) (p f : Z) (cur : option string) (j : Job)
  : Job + string :=
  if terminal (status j) then inr "job is terminal"
  else if ((p <? processed_files j) || (f <? failed_files j))%Z
  then inr "stale report"
  else if (total_files j <? p + f)%Z then inr "more files than the job has"
  else
    inl (mkJob (id j) (source j) processing (total_files j) p f cur
           (match status j with pending => Some now | _ => started_at j end)
           (completed_at j) (error_message j) (metadata j)).

(** Modelled from the spec: the engine's [completeJob] on one job, accepted
    for a [processing] job whose files are all accounted for; sets
    [completed_at] and clears [current_file]. *)
Definition complete (now : Z) (j : Job) : Job + string :=
  match status j with
  | processing =>
      if (processed_files j + failed_files j =? total_files j)%Z then
        inl (mkJob (id j) (source j) completed (total_files j)
               (processed_files j) (failed_files j) None (started_at j)
               (Some now) (error_message j) (metadata j))
      else inr "not all files accounted for"
  | pending => inr "job has not started"
  | _ => inr "job is terminal"
  end.

(** Modelled from the spec: the engine's [failJob] on one job, the
    transition from [processing] to [failed]; sets [error_message] and
    [completed_at]. *)
Definition fail (now : Z) (msg : string) (j : Job) : Job + string :=
  match status j with
  | processing =>
      inl (mkJob (id j) (source j) failed (total_files j)
             (processed_files j) (failed_files j) None (started_at j)
             (Some now) (Some msg) (metadata j))
  | pending => inr "job has not started"
  | _ => inr "job is terminal"
  end.

(** Modelled from the spec: the engine's [cancelJob] on one job, accepted
    from [pending] and [processing]. *)
Definition cancel (now : Z) (j : Job) : Job + string :=
  match status j with
  | pending | processing =>
      inl (mkJob (id j) (source j) cancelled (total_files j)
             (processed_files j) (failed_files j) None (started_at j)
             (Some now) (error_message j) (metadata j))
  | _ => inr "job is terminal"
  end.

(** Modelled from the spec: how the engine applies a transition to the job
    stored under an id. A rejection changes nothing and publishes nothing. *)
Definition transition (jid : string) (t : Job -> Job + string) (e : Engine)
  : Engine * Result :=
  match store e !! jid with
  | None => (e, rejected "not found")
  | Some j =>
      match t j with
      | inl j' => commit jid j' e
      | inr reason => (e, rejected reason)
      end
  end.

(** Modelled from the spec: the four mutating calls of the engine's
    producer- and operator-facing interface (section 6). *)
Definition reportProgress (now : Z) (jid : string) (p f : Z)
    (cur : option string) : Engine -> Engine * Result :=
  transition jid (report now p f cur).
Definition completeJob (now : Z) (jid : string) : Engine -> Engine * Result :=
  transition jid (complete now).
Definition failJob (now : Z) (jid : string) (msg : string)
  : Engine -> Engine * Result :=
  transition jid (fail now msg).
Definition cancelJob (now : Z) (jid : string) : Engine -> Engine * Result :=
  transition jid (cancel now).

(** Modelled from the spec: a call of one of the engine's four mutating
    operations, with the time at which it is made. *)
Inductive Call :=
| ReportProgress (now : Z) (jid : string) (p f : Z) (cur : option string)
| CompleteJob (now : Z) (jid : string)
| FailJob (now : Z) (jid : string) (msg : string)
| CancelJob (now : Z) (jid : string).

(** Modelled from the spec: the job id a call of the engine names. *)
Definition target (c : Call) : string :=
  match c with
  | ReportProgress _ jid _ _ _ | CompleteJob _ jid
  | FailJob _ jid _ | CancelJob _ jid => jid
  end.

(** Modelled from the spec: the engine serving one call. *)
Definition perform (c : Call) (e : Engine) : Engine * Result :=
  match c with
  | ReportProgress now jid p f cur => reportProgress now jid p f cur e
  | CompleteJob now jid => completeJob now jid e
  | FailJob now jid msg => failJob now jid msg e
  | CancelJob now jid => cancelJob now jid e
  end.

(** Modelled from the spec: the engine serving a sequence of calls one
    after the other (mutations are serialised), with the result of each. *)
Fixpoint perform_all (cs : list Call) (e : Engine) : Engine * list Result :=
  match cs with
  | [] => (e, [])
  | c :: rest =>
      let '(e1, r) := perform c e in
      let '(e2, rs) := perform_all rest e1 in
      (e2, r :: rs)
  end.

(** Modelled from the spec: a result of the engine that is a rejection. *)
Definition is_rejected (r : Result) : bool :=
  match r with rejected _ => true | accepted => false end.

(** Modelled from the spec: the engine with no job yet. *)
Definition empty : Engine := mkEngine ∅ [].

(** Modelled from the spec: the second scenario of section 8. A job of ten
    files is created, a first report arrives, the operator cancels. *)
Definition cancelled_engine : Engine :=
  let e1 := (createJob 1 "j1" ("github", "https://example.org/repo") 10 empty).1 in
  let e2 := (reportProgress 2 "j1" 4 0 (Some "a.pdf") e1).1 in
  (cancelJob 3 "j1" e2).1.

(** Modelled from the spec: the job of that scenario once cancelled. *)
Definition cancelled_job : Job :=
  mkJob "j1" ("github", "https://example.org/repo") cancelled 10 4 0 None
    (Some 2%Z) (Some 3%Z) None [].

(** Modelled from the spec: calls a producer and an operator may still make
    on the cancelled job. *)
Definition late_calls : list Call :=
  [CompleteJob 4 "j1"; ReportProgress 5 "j1" 9 1 (Some "z.pdf");
   FailJob 6 "j1" "disk full"; CancelJob 7 "j1"; CompleteJob 8 "j1"].

End JobEngine.

(* ===================================================================== *)
(** ** More of the client: predicates on its state *)
(* ===================================================================== *)

(** No set of the registry holds a handler twice. *)
Definition sets_nodup (w : World) : Prop :=
  forall event entries,
    handlers w !! event = Some entries -> NoDup (live entries).

(** A delay the backoff can produce: the initial delay doubled some number
    of times, capped. *)
Definition on_ladder (d : Z) : Prop := exists k, d = spec_delay k.

(** The delay the client holds and the delay of every pending retry are on
    the ladder. *)
Definition delays_on_ladder (w : World) : Prop :=
  on_ladder (reconnectDelay w) /\ Forall on_ladder (pending_delays w).

(* ===================================================================== *)
(** ** The analytics fetcher (lib/api.ts) *)
(* ===================================================================== *)

(** [v.map(f)]. Only an array has [map]: on any other value the call throws
    ([None]), and so does the whole [map] when [f] throws on an item. *)
Definition Array_map (f : JSValue -> option JSValue) (v : JSValue)
  : option JSValue :=
  match v with
  | JArr items => JArr <$> mapM f items
  | _ => None
  end.

(** [(q) => ({ query: q.query_text ?? q.query ?? "", count: q.count ?? 0 })].
    None of the names read here and in [fetchAnalytics] is inherited from a
    built-in prototype. *)
Definition popular_query (q : JSValue) : option JSValue :=
  query_text ← get_prop q "query_text";
  query ← get_prop q "query";
  count ← get_prop q "count";
  Some (JObj [("query", nullish (nullish query_text query) (JStr EmptyString));
              ("count", nullish count (JNum "0"))]).

(** [(r) => ({ range: r.bucket ?? r.range ?? "", count: r.count ?? 0,
              percent: r.percentage ?? r.percent ?? 0 })] *)
Definition response_time_bucket (r : JSValue) : option JSValue :=
  bucket ← get_prop r "bucket";
  range ← get_prop r "range";
  count ← get_prop r "count";
  percentage ← get_prop r "percentage";
  percent ← get_prop r "percent";
  Some (JObj [("range", nullish (nullish bucket range) (JStr EmptyString));
              ("count", nullish count (JNum "0"));
              ("percent", nullish (nullish percentage percent) (JNum "0"))]).

(** The summary used when the response carries none. *)
Definition default_summary (total_queries : JSValue) : JSValue :=
  JObj [("total_queries", nullish total_queries (JNum "0"));
        ("peak_queries", JNum "0");
        ("peak_time", JStr EmptyString);
        ("avg_per_hour", JNum "0");
        ("avg_response", JNum "0");
        ("median_response", JNum "0");
        ("p95_response", JNum "0")].

(** [fetchAnalytics], from the body of the response on. The fields of the
    result are computed in the order of the object literal. *)
Definition fetchAnalytics (data : JSValue) : option JSValue :=
  query_trend ← get_prop data "query_trend";
  popular ← get_prop data "popular_queries";
  popular_queries ← Array_map popular_query (nullish popular (JArr []));
  distribution ← get_prop data "response_time_distribution";
  response_time_distribution ←
    Array_map response_time_bucket (nullish distribution (JArr []));
  document_types ← get_prop data "document_types";
  summary ← get_prop data "summary";
  total_queries ← get_prop data "total_queries";
  Some (JObj [("query_trend", nullish query_trend (JArr []));
              ("popular_queries", popular_queries);
              ("response_time_distribution", response_time_distribution);
              ("document_types", nullish document_types (JArr []));
              ("summary", nullish summary (default_summary total_queries))]).

Definition is_nullish (v : JSValue) : bool :=
  match v with JUndefined | JNull => true | _ => false end.


(** The value of [v.name] for a [v] that is not nullish. *)
Definition field (name : string) (v : JSValue) : JSValue :=
  default JUndefined (get_prop v name).

(** The items and the result [fetchAnalytics] promises to the pages: every
    field present, the two normalised lists arrays of objects with exactly
    their two or three fields, nothing [null] or [undefined]. *)
Definition popular_shaped (item : JSValue) : Prop :=
  exists query count,
    item = JObj [("query", query); ("count", count)] /\
    is_nullish query = false /\ is_nullish count = false.

Definition bucket_shaped (item : JSValue) : Prop :=
  exists range count percent,
    item = JObj [("range", range); ("count", count); ("percent", percent)] /\
    is_nullish range = false /\ is_nullish count = false /\
    is_nullish percent = false.

Definition analytics_shaped (out : JSValue) : Prop :=
  exists query_trend popular distribution document_types summary,
    out = JObj [("query_trend", query_trend);
                ("popular_queries", JArr popular);
                ("response_time_distribution", JArr distribution);
                ("document_types", document_types);
                ("summary", summary)] /\
    is_nullish query_trend = false /\
    Forall popular_shaped popular /\
    Forall bucket_shaped distribution /\
    is_nullish document_types = false /\
    is_nullish summary = false.

(** A response in the back end's own field names. *)
Definition backend_analytics : JSValue :=
  JObj [("popular_queries",
         JArr [JObj [("query_text", JStr "flight logs"); ("count", JNum "234")];
               JObj [("query", JStr "palm beach")]]);
        ("response_time_distribution",
         JArr [JObj [("bucket", JStr "<0.5s"); ("count", JNum "560");
                     ("percentage", JNum "45")]]);
        ("total_queries", JNum "1234")].

Definition normalised_analytics : JSValue :=
  JObj [("query_trend", JArr []);
        ("popular_queries",
         JArr [JObj [("query", JStr "flight logs"); ("count", JNum "234")];
               JObj [("query", JStr "palm beach"); ("count", JNum "0")]]);
        ("response_time_distribution",
         JArr [JObj [("range", JStr "<0.5s"); ("count", JNum "560");
                     ("percent", JNum "45")]]);
        ("document_types", JArr []);
        ("summary", default_summary (JNum "1234"))].

(* ===================================================================== *)
(** ** Text helpers (lib/utils.ts) *)
(* ===================================================================== *)

(** A string is its sequence of UTF-16 code units. *)
Definition code_unit := N.

(** ["..."] *)
Definition ellipsis : list code_unit := [46%N; 46%N; 46%N].

(** [str.slice(0, end)] for an integer [end]: a negative [end] counts from
    the end of the string. *)
Definition slice0 (str : list code_unit) (e : Z) : list code_unit :=
  let len := Z.of_nat (List.length str) in
  take (Z.to_nat (if (e <? 0)%Z then Z.max (len + e) 0 else Z.min e len)) str.

(** [truncate(str, length)], for an integer [length]. *)
Definition truncate (str : list code_unit) (length : Z) : list code_unit :=
  if (Z.of_nat (List.length str) <=? length)%Z then str
  else slice0 str length ++ ellipsis.

(* ===================================================================== *)
(** ** The Queries page (pages/Queries.tsx) *)
(* ===================================================================== *)

Module QueriesPage.

(** The [QueryLog] of lib/api.ts; the filter reads [query_text] and
    [client_type]. *)
Record QueryLog := mkQueryLog {
  id : string;
  query_text : string;
  response_text : string;
  sources : JSValue;
  response_time_ms : JSValue;
  timestamp : string;
  client_type : string;
  session_id : string;
}.

Definition CLIENT_OPTIONS : list string :=
  ["All"; "claude"; "cursor"; "dashboard"; "api"].

(** [hay.includes(needle)] *)
Fixpoint includes (hay needle : string) : bool :=
  String.prefix needle hay
  || match hay with
     | EmptyString => false
     | String _ rest => includes rest needle
     end.

Definition is_empty (s : string) : bool :=
  match s with EmptyString => true | _ => false end.

Section Filter.

(** [String.prototype.toLowerCase] of the platform. *)
Variable toLowerCase : string -> string.

(** The predicate handed to [queries.filter]. An empty search term is
    falsy and filters nothing. *)
Definition keeps (searchTerm clientFilter : string) (q : QueryLog) : bool :=
  if negb (is_empty searchTerm)
     && negb (includes (toLowerCase (query_text q)) (toLowerCase searchTerm))
  then false
  else if negb (String.eqb clientFilter "All")
          && negb (String.eqb (client_type q) clientFilter)
  then false
  else true.

Definition filtered (searchTerm clientFilter : string) (queries : list QueryLog)
  : list QueryLog :=
  List.filter (keeps searchTerm clientFilter) queries.

End Filter.

End QueriesPage.

(* ===================================================================== *)
(** ** The live activity chart (components/LiveActivityChart.tsx) *)
(* ===================================================================== *)

Module LiveActivityChart.

Record DataPoint := mkDataPoint {
  time : string;
  queries : JSValue;
}.

(** The two pieces of component state. *)
Record Chart := mkChart {
  data : list DataPoint;
  currentRate : JSValue;
}.

(** [(prev) => [...prev.slice(1), point]] *)
Definition shift (point : DataPoint) (prev : list DataPoint) : list DataPoint :=
  drop 1 prev ++ [point].

(** [handleUpdate(msg)], the handler subscribed to ["query_update"].
    [clock] is the label the current time formats to and [random] the number
    the random expression yields, used when the message carries no rate.
    [None] stands for the TypeError of reading a property of a missing
    payload, thrown before any state is set. *)
Definition handleUpdate (clock : string) (random : JSValue) (msg : JSValue)
    (c : Chart) : option Chart :=
  ty ← get_prop msg "type";
  match ty with
  | JStr kind =>
      if String.eqb kind "query_update" then
        payload ← get_prop msg "data";
        queries_per_minute ← get_prop payload "queries_per_minute";
        let rate := nullish queries_per_minute random in
        Some (mkChart (shift (mkDataPoint clock rate) (data c)) rate)
      else Some c
  | _ => Some c
  end.

(** The body of the five-second interval that simulates activity. *)
Definition tick (clock : string) (random : JSValue) (c : Chart) : Chart :=
  mkChart (shift (mkDataPoint clock random) (data c)) random.

(** What reaches the component: a message dispatched to [handleUpdate], or
    a tick of the interval. *)
Inductive Input :=
| Message (clock : string) (random : JSValue) (msg : JSValue)
| Tick (clock : string) (random : JSValue).

(** A handler that throws has set no state. *)
Definition feed_one (i : Input) (c : Chart) : Chart :=
  match i with
  | Message clock random msg => default c (handleUpdate clock random msg c)
  | Tick clock random => tick clock random c
  end.

Fixpoint feed (inputs : list Input) (c : Chart) : Chart :=
  match inputs with
  | [] => c
  | i :: rest => feed rest (feed_one i c)
  end.

(** The point an input appends to the window, if it appends one. A tick
    always does, with the random rate. A message does when its [type] is
    ["query_update"] and its [data] can be read: the rate is the
    [queries_per_minute] it carries, or the random one if it carries none. *)
Definition appended_point (i : Input) : option DataPoint :=
  match i with
  | Tick clock random => Some (mkDataPoint clock random)
  | Message clock random msg =>
      match get_prop msg "type" with
      | Some (JStr kind) =>
          if String.eqb kind "query_update" then
            match get_prop msg "data" with
            | Some payload =>
                match get_prop payload "queries_per_minute" with
                | Some queries_per_minute =>
                    Some (mkDataPoint clock (nullish queries_per_minute random))
                | None => None
                end
            | None => None
            end
          else None
      | _ => None
      end
  end.

(** The points appended by a sequence of inputs, oldest first. *)
Definition appended (inputs : list Input) : list DataPoint :=
  omap appended_point inputs.

(** The last [size] elements of a list. *)
Definition latest (size : nat) (points : list DataPoint) : list DataPoint :=
  drop (length points - size) points.

End LiveActivityChart.

(* ===================================================================== *)
(** * Properties *)
(* ===================================================================== *)

(** ** JSON.parse on sample frames *)

Example parse_job_update :
  JSON_parse (wire "{'type':'job_update','data':{'id':'j1','n':[1,2.5e3]}}")
  = Some (JObj [("type", JStr "job_update");
                ("data", JObj [("id", JStr "j1");
                               ("n", JArr [JNum "1"; JNum "2.5e3"])])]).
Proof. vm_compute. reflexivity. Qed.

Example parse_null : JSON_parse " null " = Some JNull.
Proof. vm_compute. reflexivity. Qed.

Example parse_truncated : JSON_parse (wire "{'type':'job_update'") = None.
Proof. vm_compute. reflexivity. Qed.

Example parse_duplicate_key :
  JSON_parse (wire "{'a':1,'b':2,'a':3}") = Some (JObj [("a", JNum "3"); ("b", JNum "2")]).
Proof. vm_compute. reflexivity. Qed.

Example parse_trailing : JSON_parse "[1,2] x" = None.
Proof. vm_compute. reflexivity. Qed.

Example parse_escape :
  JSON_parse (wire "'a\nA'") = Some (JStr (String "a" (String "010" "A"))).
Proof. vm_compute. reflexivity. Qed.

(** An escaped surrogate pair and the character itself give the same
    string; a high surrogate on its own stays a single unit. *)
Example parse_surrogate_pair :
  let smiley :=
    String "240" (String "159" (String "152" (String "128" EmptyString))) in
  JSON_parse (wire "'\ud83d\ude00'") = Some (JStr smiley) /\
  JSON_parse (wire (String "'" (smiley ++ "'"))) = Some (JStr smiley) /\
  JSON_parse (wire "'\ud83dx'")
  = Some (JStr (String "237" (String "160" (String "189" "x")))).
Proof. vm_compute. repeat split. Qed.

(** ** Objects *)

Lemma obj_lookup_set name v fields :
  obj_lookup name (obj_set name v fields) = Some v.
Proof.
  induction fields as [|[k x] rest IH]; simpl.
  - by rewrite String.eqb_refl.
  - destruct (String.eqb k name) eqn:E; simpl; rewrite E; [done | exact IH].
Qed.

Lemma obj_lookup_set_ne name other v fields :
  other <> name ->
  obj_lookup name (obj_set other v fields) = obj_lookup name fields.
Proof.
  intros Hne. induction fields as [|[k x] rest IH]; simpl.
  - destruct (String.eqb other name) eqn:E; [|done].
    apply String.eqb_eq in E. contradiction.
  - destruct (String.eqb k other) eqn:E; simpl.
    + apply String.eqb_eq in E. subst k.
      destruct (String.eqb other name) eqn:E'; [|done].
      apply String.eqb_eq in E'. contradiction.
    + destruct (String.eqb k name); [done | exact IH].
Qed.


(** ** The list fetchers *)





(** Adding or overwriting any other field of the envelope leaves the result
    of a fetcher as it was. *)
Lemma fetchJobs_ignores_other_fields name v fields :
  name <> "jobs" ->
  fetchJobs (JObj (obj_set name v fields)) = fetchJobs (JObj fields).
Proof.
  intros Hne. unfold fetchJobs. simpl.
  by rewrite obj_lookup_set_ne.
Qed.

Lemma fetchRecentQueries_ignores_other_fields name v fields :
  name <> "queries" ->
  fetchRecentQueries (JObj (obj_set name v fields))
  = fetchRecentQueries (JObj fields).
Proof.
  intros Hne. unfold fetchRecentQueries. simpl.
  by rewrite obj_lookup_set_ne.
Qed.

(** The field is handed back as the server sent it, [null] counting as
    absent; a body that is a string, a number or a boolean has no such field
    and yields the empty list. *)
Lemma fetchJobs_field v others :
  fetchJobs (JObj (obj_set "jobs" v others)) = Some (nullish v (JArr [])).
Proof. unfold fetchJobs. simpl. by rewrite obj_lookup_set. Qed.

Lemma fetchRecentQueries_field v others :
  fetchRecentQueries (JObj (obj_set "queries" v others))
  = Some (nullish v (JArr [])).
Proof. unfold fetchRecentQueries. simpl. by rewrite obj_lookup_set. Qed.

Lemma fetchers_on_primitives s n b :
  fetchJobs (JStr s) = Some (JArr []) /\
  fetchJobs (JNum n) = Some (JArr []) /\
  fetchJobs (JBool b) = Some (JArr []) /\
  fetchRecentQueries (JStr s) = Some (JArr []) /\
  fetchRecentQueries (JNum n) = Some (JArr []) /\
  fetchRecentQueries (JBool b) = Some (JArr []).
Proof. repeat split. Qed.

Example fetchJobs_envelope :
  fetchJobs (JObj [("jobs", JArr [JStr "j1"; JStr "j2"]); ("total", JNum "2")])
  = Some (JArr [JStr "j1"; JStr "j2"]).
Proof. reflexivity. Qed.

Example fetchRecentQueries_envelope :
  fetchRecentQueries
    (JObj [("queries", JArr [JStr "q1"]); ("total", JNum "1");
           ("page", JNum "1"); ("page_size", JNum "50")])
  = Some (JArr [JStr "q1"]).
Proof. reflexivity. Qed.

(** A [null] field counts as absent; a [null] body makes the property read
    throw. *)
Example fetchJobs_null_field :
  fetchJobs (JObj [("jobs", JNull); ("total", JNum "0")]) = Some (JArr []).
Proof. reflexivity. Qed.

Example fetchJobs_null_body : fetchJobs JNull = None.
Proof. reflexivity. Qed.

(** ** The status filter of the Jobs page *)

Lemma filtered_all jobs : filtered "all" jobs = jobs.
Proof.
  unfold filtered. simpl. induction jobs as [|j rest IH]; simpl; [done|].
  by rewrite IH.
Qed.

Lemma filtered_other statusFilter jobs :
  statusFilter <> "all" ->
  filtered statusFilter jobs = filter (fun j => status j = statusFilter) jobs.
Proof.
  intros Hne. unfold filtered.
  assert (String.eqb statusFilter "all" = false) as ->
    by (by apply String.eqb_neq).
  induction jobs as [|j rest IH]; [done|].
  simpl. rewrite filter_cons.
  destruct (String.eqb (status j) statusFilter) eqn:E.
  - apply String.eqb_eq in E. rewrite decide_True by done. by rewrite IH.
  - apply String.eqb_neq in E. rewrite decide_False by done. exact IH.
Qed.

(** C8. The Jobs page shows, in their order, exactly the jobs whose status
    is the selected filter, and every job when the filter is ["all"]. The
    right-hand side selects by the proposition [status j = statusFilter]. *)
Theorem filtered_is_jobs_with_status
    (statusFilter : string) (jobs : list IndexingJob) :
  filtered statusFilter jobs =
    if decide (statusFilter = "all") then jobs
    else filter (fun j => status j = statusFilter) jobs.
Proof.
  destruct (decide (statusFilter = "all")) as [->|Hne].
  - apply filtered_all.
  - by apply filtered_other.
Qed.

(** The same, without a second filter: the result is a subsequence of the
    jobs, all of the selected status, and the largest such. *)
Lemma filtered_largest statusFilter jobs :
  statusFilter <> "all" ->
  sublist (filtered statusFilter jobs) jobs /\
  Forall (fun j => status j = statusFilter) (filtered statusFilter jobs) /\
  forall l, sublist l jobs -> Forall (fun j => status j = statusFilter) l ->
            sublist l (filtered statusFilter jobs).
Proof.
  intros Hne. rewrite filtered_other by done.
  split; [apply sublist_filter|]. split.
  - apply Forall_forall. intros j Hj. by apply list_elem_of_filter in Hj as [? _].
  - intros l Hl Hall.
    assert (filter (fun j => status j = statusFilter) l = l) as <-.
    { clear Hl. induction Hall as [|j l Hj _ IH]; [done|].
      rewrite filter_cons, decide_True by done. by rewrite IH. }
    clear Hall. induction Hl as [|x l1 l2 _ IH|x l1 l2 _ IH].
    + constructor.
    + rewrite !filter_cons. case_decide; [by constructor | exact IH].
    + rewrite (filter_cons _ x l2). case_decide; [by constructor | exact IH].
Qed.

Example filtered_by_each_option :
  (fun opt => length (filtered opt FALLBACK_JOBS)) <$> STATUS_OPTIONS
  = [3; 0; 1; 1; 1; 0].
Proof. reflexivity. Qed.

Example filtered_fallback_failed :
  status <$> filtered "failed" FALLBACK_JOBS = ["failed"] /\
  length (filtered "all" FALLBACK_JOBS) = 3 /\
  filtered "cancelled" FALLBACK_JOBS = [].
Proof. repeat split. Qed.

(** ** The job lifecycle engine *)

Module JobEngineFacts.
Import JobEngine.

Lemma terminal_rejects_report now p f cur j :
  terminal (status j) = true -> exists reason, report now p f cur j = inr reason.
Proof. intros H. unfold report. rewrite H. eauto. Qed.

Lemma terminal_rejects_complete now j :
  terminal (status j) = true -> exists reason, complete now j = inr reason.
Proof. unfold complete. destruct (status j); simpl; first [discriminate | eauto]. Qed.

Lemma terminal_rejects_fail now msg j :
  terminal (status j) = true -> exists reason, fail now msg j = inr reason.
Proof. unfold fail. destruct (status j); simpl; first [discriminate | eauto]. Qed.

Lemma terminal_rejects_cancel now j :
  terminal (status j) = true -> exists reason, cancel now j = inr reason.
Proof. unfold cancel. destruct (status j); simpl; first [discriminate | eauto]. Qed.

(** A call that names a terminal job is rejected and changes nothing, the
    list of published snapshots included. *)
Lemma perform_on_terminal c e j :
  store e !! target c = Some j -> terminal (status j) = true ->
  exists reason, perform c e = (e, rejected reason).
Proof.
  intros Hj Ht.
  destruct c as [now jid p f cur|now jid|now jid msg|now jid]; simpl in *;
    unfold reportProgress, completeJob, failJob, cancelJob, transition;
    rewrite Hj.
  - destruct (terminal_rejects_report now p f cur j Ht) as [r ->]. eauto.
  - destruct (terminal_rejects_complete now j Ht) as [r ->]. eauto.
  - destruct (terminal_rejects_fail now msg j Ht) as [r ->]. eauto.
  - destruct (terminal_rejects_cancel now j Ht) as [r ->]. eauto.
Qed.

(** A call that names another job leaves the stored job as it is. *)
Lemma perform_other c e jid :
  target c <> jid -> store (perform c e).1 !! jid = store e !! jid.
Proof.
  intros Hne.
  assert (forall t, store (transition (target c) t e).1 !! jid = store e !! jid)
    as Htr.
  { intros t. unfold transition.
    destruct (store e !! target c) as [j|]; [|done].
    destruct (t j) as [j'|reason]; [|done].
    simpl. by rewrite lookup_insert_ne. }
  destruct c; simpl in *; apply Htr.
Qed.

(** C2. Once the job stored under an id is completed, failed or cancelled,
    a [reportProgress], [completeJob], [failJob] or [cancelJob] call that
    names it comes back rejected and leaves the engine as it was; and no
    sequence of such calls (on this job or on others) changes the job, every
    call in the sequence that names it being rejected. *)
Theorem terminal_job_is_a_tombstone
    (e : Engine) (jid : string) (j : Job) (cs : list Call) :
  store e !! jid = Some j ->
  terminal (status j) = true ->
  (forall c, target c = jid -> exists reason, perform c e = (e, rejected reason)) /\
  store (perform_all cs e).1 !! jid = Some j /\
  forall i c r,
    cs !! i = Some c -> target c = jid ->
    (perform_all cs e).2 !! i = Some r ->
    is_rejected r = true.
Proof.
  intros Hj Ht. split.
  { intros c <-. by apply (perform_on_terminal c e j). }
  revert e Hj.
  induction cs as [|c rest IH]; intros e Hj.
  - split; [exact Hj|]. intros i c r Hc. by rewrite lookup_nil in Hc.
  - simpl.
    destruct (perform c e) as [e1 r1] eqn:Hp.
    destruct (perform_all rest e1) as [e2 rs] eqn:Hrest.
    assert (store e1 !! jid = Some j) as Hj1.
    { destruct (decide (target c = jid)) as [Heq|Hne].
      - subst jid. destruct (perform_on_terminal c e j Hj Ht) as [reason Hr].
        rewrite Hr in Hp. by inversion Hp; subst.
      - pose proof (perform_other c e jid Hne) as Ho.
        rewrite Hp in Ho. simpl in Ho. by rewrite Ho. }
    specialize (IH e1 Hj1). rewrite Hrest in IH. simpl in *.
    destruct IH as [IH1 IH2]. split; [exact IH1|].
    intros [|i] c' r Hc Htgt Hr; simpl in *.
    + inversion Hc; subst c'. inversion Hr; subst r.
      subst jid. destruct (perform_on_terminal c e j Hj Ht) as [reason Hr'].
      rewrite Hr' in Hp. by inversion Hp; subst.
    + by eapply IH2.
Qed.

Lemma terminal_job_is_a_tombstone_witness :
  store cancelled_engine !! "j1" = Some cancelled_job /\
  terminal (status cancelled_job) = true /\
  (exists reason,
     perform (CompleteJob 4 "j1") cancelled_engine
     = (cancelled_engine, rejected reason)) /\
  store (perform_all late_calls cancelled_engine).1 !! "j1" = Some cancelled_job.
Proof.
  assert (store cancelled_engine !! "j1" = Some cancelled_job) as Hj
    by (vm_compute; reflexivity).
  assert (terminal (status cancelled_job) = true) as Ht by reflexivity.
  destruct (terminal_job_is_a_tombstone cancelled_engine "j1" cancelled_job
              late_calls Hj Ht) as (Hone & Hall & _).
  split; [exact Hj|]. split; [exact Ht|]. split; [|exact Hall].
  by apply (Hone (CompleteJob 4 "j1")).
Defined.

(** The scenarios of section 8 of the specification. *)
Example scenario_complete_needs_all_files :
  let e1 := (createJob 1 "j" ("upload", "/uploads/batch") 10 empty).1 in
  let e2 := (reportProgress 2 "j" 4 0 None e1).1 in
  let e3 := (reportProgress 3 "j" 4 1 None e2).1 in
  (completeJob 4 "j" e3).2 = rejected "not all files accounted for" /\
  let e4 := (reportProgress 5 "j" 9 1 None e3).1 in
  let e5 := completeJob 6 "j" e4 in
  e5.2 = accepted /\
  (status <$> store e5.1 !! "j") = Some completed /\
  (progress_percent <$> store e5.1 !! "j") = Some 100%Z.
Proof. vm_compute. repeat split. Qed.

Example scenario_cancel_then_complete :
  (completeJob 4 "j1" cancelled_engine).2 = rejected "job is terminal" /\
  (status <$> store (completeJob 4 "j1" cancelled_engine).1 !! "j1")
  = Some cancelled /\
  (perform_all late_calls cancelled_engine).1 = cancelled_engine.
Proof. vm_compute. repeat split. Qed.

End JobEngineFacts.

(** ** DashboardWebSocket: dispatch to handlers that stay passive *)

Lemma with_calls_same w : with_calls (calls w) w = w.
Proof. by destruct w. Qed.

Lemma with_handlers_same w : with_handlers (handlers w) w = w.
Proof. by destruct w. Qed.

(** [on] returns normally (the set it reads is there), and writes nothing
    but the registry. *)
Lemma on_writes_registry event h w :
  exists hs, on event h w = (with_handlers hs w, Normal).
Proof.
  unfold on. destruct (handlers w !! event) as [entries|] eqn:E.
  - rewrite E. eauto.
  - simpl. rewrite lookup_insert_eq. eauto.
Qed.

Lemma detach_writes_registry event h w :
  exists hs, detach event h w = with_handlers hs w.
Proof.
  unfold detach. destruct (handlers w !! event); [eauto|].
  exists (handlers w). by rewrite with_handlers_same.
Qed.





Lemma live_cons_None entries : live (None :: entries) = live entries.
Proof. reflexivity. Qed.

Lemma live_cons_Some h entries : live (Some h :: entries) = h :: live entries.
Proof. reflexivity. Qed.

Section PassiveDispatch.

Variable body : handler -> JSValue -> list Cmd.
Hypothesis body_passive : passive body.

Lemma invoke_passive event h data w :
  invoke body event h data w
  = (with_calls (calls w ++ [(event, h, data)]) w, Normal).
Proof. unfold invoke. by rewrite body_passive. Qed.

Lemma forEach_passive fuel event data : forall i w entries,
  handlers w !! event = Some entries ->
  length entries - i < fuel ->
  forEach body fuel event data i w
  = (with_calls (calls w ++ deliveries event data (live (drop i entries))) w,
     Normal).
Proof.
  induction fuel as [|f IH]; intros i w entries Hset Hlen; [lia|].
  simpl. rewrite Hset.
  destruct (entries !! i) as [[h|]|] eqn:Hi.
  - rewrite invoke_passive.
    pose proof (lookup_lt_Some _ _ _ Hi) as Hlt.
    rewrite (IH (S i) _ entries) by first [exact Hset | lia].
    rewrite (drop_S _ _ _ Hi), live_cons_Some. simpl.
    unfold with_calls; simpl. by rewrite <- app_assoc.
  - pose proof (lookup_lt_Some _ _ _ Hi) as Hlt.
    rewrite (IH (S i) _ entries) by first [exact Hset | lia].
    by rewrite (drop_S _ _ _ Hi), live_cons_None.
  - apply lookup_ge_None in Hi. rewrite drop_ge by lia.
    simpl. by rewrite app_nil_r, with_calls_same.
Qed.

Lemma emit_passive fuel event data w :
  enough fuel w ->
  emit body fuel (JStr event) data w
  = (with_calls (calls w ++ deliveries event data (registered event w)) w,
     Normal).
Proof.
  intros Hfuel. unfold emit, registered.
  specialize (Hfuel event).
  destruct (handlers w !! event) as [entries|] eqn:Hset; simpl in Hfuel.
  - rewrite (forEach_passive fuel event data 0 w entries Hset) by lia.
    by rewrite drop_0.
  - destruct fuel as [|f]; [lia|]. simpl. rewrite Hset.
    simpl. by rewrite app_nil_r, with_calls_same.
Qed.

(** Logging an invocation does not touch the registry. *)
Lemma enough_with_calls fuel cs w : enough fuel w -> enough fuel (with_calls cs w).
Proof. done. Qed.

Lemma registered_with_calls event cs w :
  registered event (with_calls cs w) = registered event w.
Proof. done. Qed.



Lemma ws_onopen_passive fuel w :
  enough fuel w ->
  ws_onopen body fuel w
  = (with_calls (calls w ++ deliveries "connection" (connection_event true)
                                (registered "connection" w))
       (with_reconnectDelay 1000 w), Normal).
Proof. intros Hfuel. unfold ws_onopen. by rewrite emit_passive. Qed.


End PassiveDispatch.

(** ** DashboardWebSocket: incoming messages and link status *)

Lemma scheduleReconnect_calls w : calls (scheduleReconnect w) = calls w.
Proof. unfold scheduleReconnect. by destruct (reconnectTimer w). Qed.


(** C9. A frame whose text is not JSON is dropped: no handler runs and
    nothing of the client, its sockets or its timer changes, whether the
    callback is looked at alone or as the socket event that triggers it. *)
Theorem malformed_message_is_dropped
    (body : handler -> JSValue -> list Cmd) (fuel : nat) (data : string)
    (w : World) :
  JSON_parse data = None ->
  ws_onmessage body fuel data w = (w, Normal) /\
  forall s, step body fuel (SockMessage s data) w = w.
Proof.
  intros Hparse.
  assert (ws_onmessage body fuel data w = (w, Normal)) as Hm
    by (unfold ws_onmessage; by rewrite Hparse).
  split; [exact Hm|].
  intros s. simpl. rewrite Hm.
  by destruct (sockets w !! s) as [[]|].
Qed.

(** C10. [connect] on a client whose socket is open changes nothing: no
    socket is constructed, no timer is set, no field is written. *)
Theorem connect_when_open_is_noop (ctor_ok : bool) (w : World) :
  ws_is_open w = true -> connect ctor_ok w = w.
Proof. intros Hopen. unfold connect. by rewrite Hopen. Qed.




(** A concrete registry is checked against the bound by computation. *)
Lemma enough_by_computation fuel w :
  bool_decide (0 < fuel /\
               map_Forall (fun _ entries => length entries < fuel) (handlers w))
  = true ->
  enough fuel w.
Proof.
  intros H. apply bool_decide_eq_true in H as [Hpos Hall].
  intros event. destruct (handlers w !! event) as [entries|] eqn:E; simpl.
  - exact (Hall event entries E).
  - exact Hpos.
Qed.

Lemma quiet_passive : passive quiet.
Proof. by intros h data. Defined.

Lemma malformed_message_is_dropped_witness :
  JSON_parse "{oops" = None /\
  (ws_onmessage quiet 5 "{oops" open_client = (open_client, Normal) /\
   forall s, step quiet 5 (SockMessage s "{oops") open_client = open_client).
Proof.
  split; [vm_compute; reflexivity|].
  apply (malformed_message_is_dropped quiet 5 "{oops" open_client).
  vm_compute; reflexivity.
Defined.

Lemma connect_when_open_is_noop_witness :
  ws_is_open open_client = true /\ connect true open_client = open_client.
Proof.
  split; [vm_compute; reflexivity|].
  apply (connect_when_open_is_noop true open_client).
  vm_compute; reflexivity.
Defined.





(** ** DashboardWebSocket: what a dispatch preserves *)

(** A property of the client that the commands allowed to handlers keep, and
    that the record of an invocation keeps, holds after any dispatch,
    however it ends. *)
Section DispatchPreserves.

Variable body : handler -> JSValue -> list Cmd.
Variable allowed : Cmd -> Prop.
Variable P : World -> Prop.

Hypothesis body_allowed : forall h data, Forall allowed (body h data).
Hypothesis cmd_keeps : forall c w, allowed c -> P w -> P (run_cmd c w).1.
Hypothesis record_keeps : forall w event h data entries i,
  P w -> handlers w !! event = Some entries -> entries !! i = Some (Some h) ->
  P (with_calls (calls w ++ [(event, h, data)]) w).

Lemma run_script_preserves cs : forall w,
  Forall allowed cs -> P w -> P (run_script cs w).1.
Proof.
  induction cs as [|c rest IH]; intros w Hcs Hw; [exact Hw|].
  apply Forall_cons in Hcs as [Hc Hrest]. simpl.
  pose proof (cmd_keeps c w Hc Hw) as Hw1.
  destruct (run_cmd c w) as [w1 r]. simpl in Hw1.
  destruct r; [by apply IH | exact Hw1 | exact Hw1].
Qed.

Lemma forEach_preserves fuel event data : forall i w,
  P w -> P (forEach body fuel event data i w).1.
Proof.
  induction fuel as [|f IH]; intros i w Hw; [exact Hw|].
  simpl. destruct (handlers w !! event) as [entries|] eqn:Hset; [|exact Hw].
  destruct (entries !! i) as [[h|]|] eqn:Hi; [| by apply IH | exact Hw].
  unfold invoke.
  pose proof (run_script_preserves (body h data) _ (body_allowed h data)
                (record_keeps w event h data entries i Hw Hset Hi)) as Hw1.
  destruct (run_script (body h data) _) as [w1 r]. simpl in Hw1.
  destruct r; [by apply IH | exact Hw1 | exact Hw1].
Qed.

Lemma emit_preserves fuel event data w :
  P w -> P (emit body fuel event data w).1.
Proof.
  intros Hw. destruct event; simpl; try exact Hw. by apply forEach_preserves.
Qed.

Lemma ws_onmessage_preserves fuel data w :
  P w -> P (ws_onmessage body fuel data w).1.
Proof.
  intros Hw. unfold ws_onmessage.
  destruct (JSON_parse data) as [message|]; [|exact Hw].
  destruct (get_prop message "type") as [ty|]; [|exact Hw].
  pose proof (emit_preserves fuel ty message w Hw) as Hw1.
  destruct (emit body fuel ty message w) as [w1 r1]. simpl in Hw1.
  destruct r1; try exact Hw1.
  pose proof (emit_preserves fuel (JStr "*") message w1 Hw1) as Hw2.
  destruct (emit body fuel (JStr "*") message w1) as [w2 r2].
  by destruct r2.
Qed.

End DispatchPreserves.

(** ** DashboardWebSocket: at most one reconnect timer *)

Lemma scheduleReconnect_tracked w :
  timer_tracked w -> timer_tracked (scheduleReconnect w).
Proof.
  unfold timer_tracked, scheduleReconnect. intros H.
  destruct (reconnectTimer w) eqn:E; [by rewrite E|].
  simpl in *. apply fmap_nil_inv in H. by rewrite H.
Qed.

Lemma connect_tracked ok w : timer_tracked w -> timer_tracked (connect ok w).
Proof.
  intros H. unfold connect. destruct (ws_is_open w); [exact H|].
  destruct ok; [exact H|]. by apply scheduleReconnect_tracked.
Qed.

Lemma socket_close_timers s w :
  timers (socket_close s w) = timers w /\
  reconnectTimer (socket_close s w) = reconnectTimer w.
Proof. unfold socket_close. by destruct (sockets w !! s) as [[]|]. Qed.

Lemma clearTimeout_tracked id w :
  timer_tracked w -> reconnectTimer w = Some id ->
  timer_tracked (with_reconnectTimer None (clearTimeout id w)).
Proof.
  unfold timer_tracked. intros H E. rewrite E in H. simpl in *.
  destruct (timers w) as [|[id' d] [|t rest]]; try discriminate.
  inversion H; subst id'.
  rewrite filter_cons, decide_False; [done|]. simpl. by intros Hne.
Qed.

Lemma disconnect_tracked w : timer_tracked w -> timer_tracked (disconnect w).
Proof.
  intros H. unfold disconnect.
  set (w1 := match reconnectTimer w with
             | Some id => with_reconnectTimer None (clearTimeout id w)
             | None => w
             end).
  assert (timer_tracked w1) as H1.
  { subst w1. destruct (reconnectTimer w) as [id|] eqn:E; [|exact H].
    by apply clearTimeout_tracked. }
  clearbody w1. unfold timer_tracked in *. simpl.
  destruct (ws w1) as [s|]; [|exact H1].
  destruct (socket_close_timers s w1) as [-> ->]. exact H1.
Qed.

Lemma on_tracked e h w : timer_tracked w -> timer_tracked (on e h w).1.
Proof.
  unfold on. intros H.
  destruct (handlers w !! e) as [entries|] eqn:E; simpl.
  - by rewrite E.
  - by rewrite lookup_insert_eq.
Qed.

Lemma detach_tracked e h w : timer_tracked w -> timer_tracked (detach e h w).
Proof. unfold detach. intros H. by destruct (handlers w !! e). Qed.

Lemma run_cmd_tracked c w : timer_tracked w -> timer_tracked (run_cmd c w).1.
Proof.
  intros H. destruct c; simpl.
  - by apply on_tracked.
  - by apply detach_tracked.
  - by apply connect_tracked.
  - by apply disconnect_tracked.
  - exact H.
Qed.

Lemma fire_tracked id ok w :
  timer_tracked w -> pending id w = true ->
  timer_tracked (reconnect_callback ok (clearTimeout id w)).
Proof.
  intros H Hp. unfold pending in Hp. apply bool_decide_eq_true in Hp.
  assert (reconnectTimer w = Some id) as E.
  { unfold timer_tracked in H. rewrite H in Hp.
    destruct (reconnectTimer w) as [id'|]; simpl in Hp.
    - apply list_elem_of_singleton in Hp. by subst.
    - by apply not_elem_of_nil in Hp. }
  unfold reconnect_callback. apply connect_tracked.
  exact (clearTimeout_tracked id w H E).
Qed.

Section OneTimer.

Variable body : handler -> JSValue -> list Cmd.

Lemma emit_tracked fuel event data w :
  timer_tracked w -> timer_tracked (emit body fuel event data w).1.
Proof.
  apply (emit_preserves body (fun _ => True) timer_tracked).
  - intros h d. apply Forall_forall. done.
  - intros c w' _. apply run_cmd_tracked.
  - done.
Qed.

Lemma ws_onmessage_tracked fuel data w :
  timer_tracked w -> timer_tracked (ws_onmessage body fuel data w).1.
Proof.
  apply (ws_onmessage_preserves body (fun _ => True) timer_tracked).
  - intros h d. apply Forall_forall. done.
  - intros c w' _. apply run_cmd_tracked.
  - done.
Qed.

Lemma ws_onclose_tracked fuel w :
  timer_tracked w -> timer_tracked (ws_onclose body fuel w).1.
Proof.
  intros H. unfold ws_onclose.
  pose proof (emit_tracked fuel (JStr "connection") (connection_event false) w H)
    as H1.
  destruct (emit body fuel (JStr "connection") (connection_event false) w)
    as [w1 r]. simpl in H1.
  destruct r; simpl; [by apply scheduleReconnect_tracked | done | done].
Qed.

Lemma step_tracked fuel ev w :
  timer_tracked w -> timer_tracked (step body fuel ev w).
Proof.
  intros H. destruct ev as [ok| |e h|e h|s|s data|s|s|id ok]; simpl.
  - by apply connect_tracked.
  - by apply disconnect_tracked.
  - by apply on_tracked.
  - by apply detach_tracked.
  - destruct (sockets w !! s) as [[]|]; try exact H.
    unfold ws_onopen. by apply emit_tracked.
  - destruct (sockets w !! s) as [[]|]; try exact H;
      by apply ws_onmessage_tracked.
  - destruct (sockets w !! s); [|exact H].
    unfold ws_onerror. destruct (ws w) as [s'|]; [|exact H].
    unfold timer_tracked.
    destruct (socket_close_timers s' w) as [-> ->]. exact H.
  - destruct (sockets w !! s) as [[]|]; try exact H;
      by apply ws_onclose_tracked.
  - destruct (pending id w) eqn:Hp; [|exact H]. by apply fire_tracked.
Qed.

Lemma run_tracked fuel evs : forall w,
  timer_tracked w -> timer_tracked (run body fuel evs w).
Proof.
  induction evs as [|ev rest IH]; intros w H; [exact H|].
  simpl. apply IH. by apply step_tracked.
Qed.

End OneTimer.

Lemma scheduleReconnect_while_pending w :
  timer_tracked w -> timers w <> [] -> scheduleReconnect w = w.
Proof.
  unfold timer_tracked, scheduleReconnect. intros H Hne.
  destruct (reconnectTimer w); [done|].
  simpl in H. apply fmap_nil_inv in H. contradiction.
Qed.

(** C4. In every state the client can reach, whatever its handlers do, at
    most one reconnect timeout is pending, and [scheduleReconnect] called
    while one is pending changes nothing: no second timeout, the same
    delay. *)
Theorem at_most_one_reconnect_timer
    (body : handler -> JSValue -> list Cmd) (fuel : nat) (evs : list Event) :
  let w := run body fuel evs initial in
  length (timers w) <= 1 /\
  (timers w <> [] -> scheduleReconnect w = w).
Proof.
  intros w.
  assert (timer_tracked w) as H by (by apply run_tracked).
  split; [|by apply scheduleReconnect_while_pending].
  unfold timer_tracked in H.
  rewrite <- (length_fmap fst), H. destruct (reconnectTimer w); simpl; lia.
Qed.

Lemma at_most_one_reconnect_timer_witness :
  let w := run quiet 5 [Connect false; Connect false; Connect true;
                        SockError 0; SockClose 0] initial in
  timers w <> [] /\ length (timers w) <= 1 /\ scheduleReconnect w = w.
Proof.
  intros w.
  assert (timers w <> []) as Hne by (vm_compute; discriminate).
  destruct (at_most_one_reconnect_timer quiet 5
              [Connect false; Connect false; Connect true;
               SockError 0; SockClose 0]) as [Hlen Hnoop].
  split; [exact Hne|]. split; [exact Hlen | exact (Hnoop Hne)].
Defined.

(** ** DashboardWebSocket: reconnect backoff *)

Lemma enough_same_handlers fuel w w' :
  handlers w' = handlers w -> enough fuel w -> enough fuel w'.
Proof. unfold enough. by intros ->. Qed.

Lemma spec_delay_double n :
  Z.min (spec_delay n * 2) maxReconnectDelay = spec_delay (S n).
Proof.
  unfold spec_delay, maxReconnectDelay, initialReconnectDelay.
  rewrite Nat2Z.inj_succ, Z.pow_succ_r by lia.
  assert (0 < 2 ^ Z.of_nat n)%Z by (apply Z.pow_pos_nonneg; lia).
  lia.
Qed.

Section Backoff.

Variable body : handler -> JSValue -> list Cmd.
Hypothesis body_passive : passive body.
Variable fuel : nat.









End Backoff.






(** Why the theorem asks that no retry be pending when the connection
    opens. The page connects, the socket opens, the page disconnects and
    connects again; the close event of the first socket then schedules a
    retry while the second socket is connecting. The second socket opens,
    and the retry fires while the link is up: the delay doubles and
    [connect] returns at once. When the link is lost the first retry waits
    2000 ms, and 8000 ms after two failed retries. *)
Example stale_retry_doubles_delay_while_connected :
  let w := run quiet 5
             [Connect true; SockOpen 0; Disconnect; Connect true;
              SockClose 0; SockOpen 1; TimerFire 1 true] initial in
  ws_is_open w = true /\ reconnectDelay w = 2000%Z /\
  pending_delays (run quiet 5 [SockClose 1] w) = [2000%Z] /\
  pending_delays
    (failing_retries quiet 5 [false; false] (run quiet 5 [SockClose 1] w))
  = [8000%Z].
Proof. vm_compute. repeat split. Qed.

(** Why the theorem asks for handlers that do not throw: with a status
    handler that throws, the loss of the connection schedules no retry. *)
Example throwing_handler_leaves_no_retry :
  pending_delays
    (run handler_8_throws 5
       [On "connection" 8; Connect true; SockOpen 0; SockClose 0] initial)
  = [].
Proof. vm_compute. reflexivity. Qed.

(** ** DashboardWebSocket: detaching a handler *)

Lemma Set_delete_gone h entries : Some h ∉ Set_delete h entries.
Proof.
  unfold Set_delete. intros Hin. apply list_elem_of_fmap in Hin as (x & Hx & _).
  by destruct (decide (x = Some h)).
Qed.

Lemma Set_delete_keeps_gone h h' entries :
  Some h ∉ entries -> Some h ∉ Set_delete h' entries.
Proof.
  unfold Set_delete. intros Hnot Hin.
  apply list_elem_of_fmap in Hin as (x & Hx & Hin).
  destruct (decide (x = Some h')); [done|]. by subst x.
Qed.

Lemma Set_delete_absent h entries :
  Some h ∉ entries -> Set_delete h entries = entries.
Proof.
  unfold Set_delete. induction entries as [|x rest IH]; intros Hnot; [done|].
  apply not_elem_of_cons in Hnot as [Hne Hrest]. simpl.
  rewrite decide_False by done. f_equal. by apply IH.
Qed.

Lemma Set_add_keeps_gone h h' entries :
  h' <> h -> Some h ∉ entries -> Some h ∉ Set_add h' entries.
Proof.
  unfold Set_add. intros Hne Hnot. case_bool_decide; [done|].
  rewrite elem_of_app, list_elem_of_singleton. intros [?|?]; [done|congruence].
Qed.

Lemma detach_gone event h w : gone event h (detach event h w).
Proof.
  unfold gone, detach. intros entries.
  destruct (handlers w !! event) as [old|] eqn:E; simpl.
  - rewrite lookup_insert_eq. intros [= <-]. apply Set_delete_gone.
  - by rewrite E.
Qed.

(** Detaching a handler that is not subscribed writes nothing. *)
Lemma detach_again event h w : gone event h w -> detach event h w = w.
Proof.
  unfold gone, detach. intros Hgone.
  destruct (handlers w !! event) as [entries|] eqn:E; [|done].
  rewrite (Set_delete_absent h entries) by (by apply Hgone).
  rewrite insert_id by done. apply with_handlers_same.
Qed.

Lemma on_keeps_gone event h e' h' w :
  (e', h') <> (event, h) -> gone event h w -> gone event h (on e' h' w).1.
Proof.
  unfold gone, on. intros Hne Hgone entries.
  destruct (handlers w !! e') as [old|] eqn:E; simpl.
  - rewrite E. simpl. destruct (decide (e' = event)) as [->|Hev].
    + rewrite lookup_insert_eq. intros [= <-].
      apply Set_add_keeps_gone; [congruence | by apply Hgone].
    + rewrite lookup_insert_ne by done. apply Hgone.
  - rewrite lookup_insert_eq. simpl.
    destruct (decide (e' = event)) as [->|Hev].
    + rewrite lookup_insert_eq. intros [= <-].
      apply Set_add_keeps_gone; [congruence | apply not_elem_of_nil].
    + rewrite !lookup_insert_ne by done. apply Hgone.
Qed.

Lemma detach_keeps_gone event h e' h' w :
  gone event h w -> gone event h (detach e' h' w).
Proof.
  unfold gone, detach. intros Hgone entries.
  destruct (handlers w !! e') as [old|] eqn:E; simpl; [|apply Hgone].
  destruct (decide (e' = event)) as [->|Hev].
  - rewrite lookup_insert_eq. intros [= <-].
    apply Set_delete_keeps_gone. by apply Hgone.
  - rewrite lookup_insert_ne by done. apply Hgone.
Qed.

(** What [connect], [disconnect] and the timer leave alone. *)
Lemma scheduleReconnect_registry w :
  handlers (scheduleReconnect w) = handlers w.
Proof. unfold scheduleReconnect. by destruct (reconnectTimer w). Qed.

Lemma connect_registry ok w :
  handlers (connect ok w) = handlers w /\ calls (connect ok w) = calls w.
Proof.
  unfold connect. destruct (ws_is_open w); [done|].
  destruct ok; [done|].
  by rewrite scheduleReconnect_registry, scheduleReconnect_calls.
Qed.

Lemma socket_close_registry s w :
  handlers (socket_close s w) = handlers w /\
  calls (socket_close s w) = calls w.
Proof. unfold socket_close. by destruct (sockets w !! s) as [[]|]. Qed.

Lemma disconnect_registry w :
  handlers (disconnect w) = handlers w /\ calls (disconnect w) = calls w.
Proof.
  unfold disconnect. simpl.
  destruct (reconnectTimer w) as [id|]; simpl;
    (destruct (ws w) as [s|]; [|done]).
  - apply (socket_close_registry s (with_reconnectTimer None (clearTimeout id w))).
  - apply (socket_close_registry s w).
Qed.

Lemma detached_same_registry event h n w w' :
  handlers w' = handlers w -> calls w' = calls w ->
  detached event h n w -> detached event h n w'.
Proof.
  unfold detached, gone, invoked. intros -> ->. done.
Qed.

Lemma run_cmd_keeps_detached event h n c w :
  c <> CallOn event h ->
  detached event h n w -> detached event h n (run_cmd c w).1.
Proof.
  intros Hc [Hgone Hn]. destruct c as [e' h'|e' h'|ok| |]; simpl.
  - split; [apply on_keeps_gone; [congruence | done]|].
    by destruct (on_writes_registry e' h' w) as [hs ->].
  - split; [by apply detach_keeps_gone|].
    by destruct (detach_writes_registry e' h' w) as [hs ->].
  - destruct (connect_registry ok w) as [Hh Hcs].
    by apply (detached_same_registry event h n w).
  - destruct (disconnect_registry w) as [Hh Hcs].
    by apply (detached_same_registry event h n w).
  - done.
Qed.

Lemma record_keeps_detached event h n w e' h' data entries i :
  detached event h n w ->
  handlers w !! e' = Some entries -> entries !! i = Some (Some h') ->
  detached event h n (with_calls (calls w ++ [(e', h', data)]) w).
Proof.
  intros [Hgone Hn] Hset Hi. split; [exact Hgone|].
  unfold invoked in *. simpl. rewrite filter_app, length_app, Hn.
  rewrite filter_cons, decide_False; [simpl; lia|].
  simpl. intros [-> ->].
  apply (Hgone entries Hset). by eapply list_elem_of_lookup_2.
Qed.

Section Detached.

Variable body : handler -> JSValue -> list Cmd.
Variable event : string.
Variable h : handler.

(** No handler subscribes [h] to [event] again. *)
Hypothesis no_resubscription : forall h' data, CallOn event h ∉ body h' data.

Lemma body_never_resubscribes h' data :
  Forall (fun c => c <> CallOn event h) (body h' data).
Proof.
  apply Forall_forall. intros c Hc ->. by apply (no_resubscription h' data).
Qed.

Lemma run_script_keeps_detached n cs w :
  CallOn event h ∉ cs ->
  detached event h n w -> detached event h n (run_script cs w).1.
Proof.
  intros Hcs.
  apply (run_script_preserves (fun c => c <> CallOn event h)
           (detached event h n)).
  - intros c w'. apply run_cmd_keeps_detached.
  - apply Forall_forall. by intros c Hc ->.
Qed.

Lemma forEach_keeps_detached n fuel e' data i w :
  detached event h n w ->
  detached event h n (forEach body fuel e' data i w).1.
Proof.
  apply (forEach_preserves body (fun c => c <> CallOn event h)
           (detached event h n)).
  - apply body_never_resubscribes.
  - intros c w'. apply run_cmd_keeps_detached.
  - intros w' e'' h' d entries j. apply record_keeps_detached.
Qed.

Lemma emit_keeps_detached n fuel e' data w :
  detached event h n w -> detached event h n (emit body fuel e' data w).1.
Proof.
  apply (emit_preserves body (fun c => c <> CallOn event h)
           (detached event h n)).
  - apply body_never_resubscribes.
  - intros c w'. apply run_cmd_keeps_detached.
  - intros w' e'' h' d entries j. apply record_keeps_detached.
Qed.

Lemma ws_onmessage_keeps_detached n fuel data w :
  detached event h n w ->
  detached event h n (ws_onmessage body fuel data w).1.
Proof.
  apply (ws_onmessage_preserves body (fun c => c <> CallOn event h)
           (detached event h n)).
  - apply body_never_resubscribes.
  - intros c w'. apply run_cmd_keeps_detached.
  - intros w' e'' h' d entries j. apply record_keeps_detached.
Qed.

Lemma step_keeps_detached n fuel ev w :
  ev <> On event h ->
  detached event h n w -> detached event h n (step body fuel ev w).
Proof.
  intros Hev Hw. destruct ev as [ok| |e' h'|e' h'|s|s data|s|s|id ok]; simpl.
  - by apply (run_cmd_keeps_detached event h n (CallConnect ok)).
  - by apply (run_cmd_keeps_detached event h n CallDisconnect).
  - apply (run_cmd_keeps_detached event h n (CallOn e' h')); [congruence|done].
  - by apply (run_cmd_keeps_detached event h n (CallDetach e' h')).
  - destruct (sockets w !! s) as [[]|]; try exact Hw.
    unfold ws_onopen. apply emit_keeps_detached.
    by apply (detached_same_registry event h n w).
  - destruct (sockets w !! s) as [[]|]; try exact Hw;
      by apply ws_onmessage_keeps_detached.
  - destruct (sockets w !! s); [|exact Hw].
    unfold ws_onerror. destruct (ws w) as [s'|]; [|exact Hw].
    destruct (socket_close_registry s' w) as [Hh Hc].
    by apply (detached_same_registry event h n w).
  - assert (detached event h n
              (ws_onclose body fuel (set_readyState s CLOSED w)).1) as Hclose.
    { unfold ws_onclose.
      pose proof (emit_keeps_detached n fuel (JStr "connection")
                    (connection_event false) (set_readyState s CLOSED w)) as He.
      destruct (emit body fuel (JStr "connection") (connection_event false)
                  (set_readyState s CLOSED w)) as [w1 r]. simpl in He.
      assert (detached event h n w1) as Hw1
        by (apply He; by apply (detached_same_registry event h n w)).
      destruct r; simpl; try exact Hw1.
      apply (detached_same_registry event h n w1);
        [apply scheduleReconnect_registry | apply scheduleReconnect_calls | done]. }
    by destruct (sockets w !! s) as [[]|].
  - destruct (pending id w); [|exact Hw].
    unfold reconnect_callback.
    destruct (connect_registry ok
                (with_reconnectDelay
                   (Z.min (reconnectDelay (with_reconnectTimer None
                                             (clearTimeout id w)) * 2)
                      maxReconnectDelay)
                   (with_reconnectTimer None (clearTimeout id w)))) as [Hh Hc].
    by apply (detached_same_registry event h n w).
Qed.

Lemma run_keeps_detached n fuel evs : forall w,
  On event h ∉ evs ->
  detached event h n w -> detached event h n (run body fuel evs w).
Proof.
  induction evs as [|ev rest IH]; intros w Hevs Hw; [exact Hw|].
  apply not_elem_of_cons in Hevs as [Hev Hrest].
  simpl. apply IH; [done|]. apply step_keeps_detached; [congruence|done].
Qed.

End Detached.

(** ** The bound of the model *)

(** Every registry is within some bound: the hypothesis [enough] of the
    results above can always be met. *)
Lemma enough_exists w : exists fuel, enough fuel w.
Proof.
  assert (exists n, forall event entries,
            handlers w !! event = Some entries -> length entries < n)
    as [n Hn].
  { induction (handlers w) as [|event entries m Hfresh IH] using map_ind.
    - exists 0. intros event entries. by rewrite lookup_empty.
    - destruct IH as [n Hn]. exists (n `max` S (length entries)).
      intros e' entries'. rewrite lookup_insert. case_decide.
      + intros [= <-]. lia.
      + intros He'. specialize (Hn e' entries' He'). lia. }
  exists (S n). intros event.
  destruct (handlers w !! event) as [entries|] eqn:E; simpl.
  - specialize (Hn event entries E). lia.
  - lia.
Qed.

Lemma enough_more fuel fuel' w : enough fuel w -> fuel <= fuel' -> enough fuel' w.
Proof. intros H Hle event. specialize (H event). lia. Qed.

(** ** DashboardWebSocket: a dispatch during which handlers detach *)

Lemma erasure_refl l : erasure l l.
Proof. apply Forall2_same_length_lookup. split; [done|]. naive_solver. Qed.

Lemma erasure_trans l1 l2 l3 : erasure l1 l2 -> erasure l2 l3 -> erasure l1 l3.
Proof.
  unfold erasure. intros H12 H23.
  eapply Forall2_trans; [|exact H12|exact H23].
  simpl. intros x y z [-> | ->] [-> | ->]; auto.
Qed.

Lemma Set_delete_erasure h l : erasure l (Set_delete h l).
Proof.
  unfold erasure, Set_delete. apply Forall2_fmap_r, Forall_Forall2_diag.
  apply Forall_forall. intros x _. simpl. case_decide; auto.
Qed.

Lemma erasure_live l l' : erasure l l' -> sublist (live l') (live l).
Proof.
  unfold erasure, live. induction 1 as [|x x' l l' Hx _ IH]; [constructor|].
  destruct Hx as [-> | ->]; simpl.
  - destruct x; simpl; [by constructor | exact IH].
  - destruct x; simpl; [by constructor | exact IH].
Qed.

Lemma erasure_lookup_Some l l' j g :
  erasure l l' -> l' !! j = Some (Some g) -> l !! j = Some (Some g).
Proof.
  intros He Hj. destruct (Forall2_lookup_r _ _ _ _ _ He Hj) as (x & Hx & [E|E]).
  - by subst.
  - discriminate.
Qed.

Lemma shrunk_refl w : shrunk w w.
Proof. split; [done|]. intros e entries He. eauto using erasure_refl. Qed.

Lemma shrunk_trans w1 w2 w3 : shrunk w1 w2 -> shrunk w2 w3 -> shrunk w1 w3.
Proof.
  intros [Hc12 H12] [Hc23 H23]. split; [congruence|].
  intros e entries He.
  destruct (H12 e entries He) as (l2 & Hl2 & He2).
  destruct (H23 e l2 Hl2) as (l3 & Hl3 & He3).
  eauto using erasure_trans.
Qed.

Lemma detach_shrunk e h w : shrunk w (detach e h w).
Proof.
  unfold detach. destruct (handlers w !! e) as [old|] eqn:E;
    [|apply shrunk_refl].
  split; [done|]. intros e' entries He'. simpl.
  destruct (decide (e = e')) as [->|Hne].
  - rewrite lookup_insert_eq. rewrite E in He'. injection He' as <-.
    eauto using Set_delete_erasure.
  - rewrite lookup_insert_ne by done. eauto using erasure_refl.
Qed.

Lemma run_script_detaches cs : forall w,
  Forall (fun c => exists e h', c = CallDetach e h') cs ->
  exists w', run_script cs w = (w', Normal) /\ shrunk w w'.
Proof.
  induction cs as [|c rest IH]; intros w Hcs.
  - exists w. split; [done | apply shrunk_refl].
  - apply Forall_cons in Hcs as [(e & h' & ->) Hrest]. simpl.
    destruct (IH (detach e h' w) Hrest) as (w' & Hrun & Hsh).
    exists w'. split; [exact Hrun|].
    eapply shrunk_trans; [apply detach_shrunk | exact Hsh].
Qed.

Section DetachingDispatch.

Variable body : handler -> JSValue -> list Cmd.
Hypothesis body_only_detaches : only_detaches body.

(** The walk reaches the end of the set; it calls, in order and once each,
    handlers that were live when it started (passing over those detached
    before their turn), and every handler still in the set at the end has
    been called. *)
Lemma forEach_survives_detaches fuel event data : forall i w entries,
  handlers w !! event = Some entries ->
  length entries - i < fuel ->
  exists w' entries' visited,
    forEach body fuel event data i w = (w', Normal) /\
    handlers w' !! event = Some entries' /\
    erasure entries entries' /\
    calls w' = (calls w ++ deliveries event data visited)%list /\
    sublist visited (live (drop i entries)) /\
    forall j g, i <= j -> entries' !! j = Some (Some g) -> g ∈ visited.
Proof.
  induction fuel as [|f IH]; intros i w entries Hset Hlen; [lia|].
  simpl. rewrite Hset.
  destruct (entries !! i) as [[h|]|] eqn:Hi.
  - pose proof (lookup_lt_Some _ _ _ Hi) as Hlt.
    unfold invoke.
    destruct (run_script_detaches (body h data)
                (with_calls (calls w ++ [(event, h, data)]) w)
                (body_only_detaches h data)) as (w1 & -> & [Hc1 Hsh1]).
    destruct (Hsh1 event entries Hset) as (entries1 & Hset1 & He1).
    assert (length entries1 = length entries) as Hlen1
      by (symmetry; by eapply Forall2_length).
    destruct (IH (S i) w1 entries1 Hset1 ltac:(lia))
      as (w' & entries' & visited & Hrun & Hset' & He' & Hc' & Hsub & Hall).
    exists w', entries', (h :: visited). repeat split.
    + exact Hrun.
    + exact Hset'.
    + by eapply erasure_trans.
    + rewrite Hc', Hc1. simpl. by rewrite <- app_assoc.
    + rewrite (drop_S _ _ _ Hi), live_cons_Some. constructor.
      etrans; [exact Hsub|]. apply erasure_live.
      unfold erasure. by apply Forall2_drop.
    + intros j g Hj Hg. destruct (decide (j = i)) as [->|Hne].
      * assert (entries !! i = Some (Some g)) as Hg'
          by (eapply erasure_lookup_Some; [eapply erasure_trans|]; done).
        rewrite Hi in Hg'. injection Hg' as ->. apply list_elem_of_here.
      * apply list_elem_of_further. apply (Hall j g); [lia | done].
  - pose proof (lookup_lt_Some _ _ _ Hi) as Hlt.
    destruct (IH (S i) w entries Hset ltac:(lia))
      as (w' & entries' & visited & Hrun & Hset' & He' & Hc' & Hsub & Hall).
    exists w', entries', visited. repeat split; try done.
    + by rewrite (drop_S _ _ _ Hi), live_cons_None.
    + intros j g Hj Hg. destruct (decide (j = i)) as [->|Hne].
      * assert (entries !! i = Some (Some g)) as Hg'
          by (by eapply erasure_lookup_Some).
        rewrite Hi in Hg'. discriminate.
      * apply (Hall j g); [lia | done].
  - exists w, entries, []. repeat split.
    + exact Hset.
    + apply erasure_refl.
    + simpl. by rewrite app_nil_r.
    + apply sublist_nil_l.
    + intros j g Hj Hg. apply lookup_ge_None in Hi.
      apply lookup_lt_Some in Hg. lia.
Qed.

End DetachingDispatch.

(** ** DashboardWebSocket: the detach function *)

Lemma detach_repeated event h n w :
  Nat.iter (S n) (detach event h) w = detach event h w.
Proof.
  induction n as [|n IH]; [done|].
  change (Nat.iter (S (S n)) (detach event h) w)
    with (detach event h (Nat.iter (S n) (detach event h) w)).
  rewrite IH. apply detach_again, detach_gone.
Qed.

(** C6. The function returned by [on(event, h)] can be called any number of
    times: it always returns, and every call after the first changes
    nothing. Once it has been called, be it by the page or by a handler in
    the middle of a dispatch, [h] is out of the set of [event], and for as
    long as nothing subscribes it again no step of the client calls [h] for
    [event]: not the rest of the handler that made the call, not the rest of
    the dispatch in progress, not any later call or event. And a dispatch
    during which handlers call detach functions still runs to its end: it
    calls no handler twice and passes over none that stays subscribed. *)
Theorem detach_is_safe_and_final
    (body : handler -> JSValue -> list Cmd) (fuel : nat)
    (event : string) (h : handler) (w0 : World) :
  (forall h' data, CallOn event h ∉ body h' data) ->
  (forall k, Nat.iter (S k) (detach event h) w0 = detach event h w0) /\
  (run_cmd (CallDetach event h) w0).2 = Normal /\
  gone event h (detach event h w0) /\
  (forall n w, detached event h n w ->
    detach event h w = w /\
    (forall cs, CallOn event h ∉ cs ->
                detached event h n (run_script cs w).1) /\
    (forall e' data i, detached event h n (forEach body fuel e' data i w).1) /\
    (forall evs, On event h ∉ evs -> detached event h n (run body fuel evs w))) /\
  (only_detaches body ->
   forall data w entries,
     handlers w !! event = Some entries -> length entries < fuel ->
     exists w' visited,
       emit body fuel (JStr event) data w = (w', Normal) /\
       calls w' = (calls w ++ deliveries event data visited)%list /\
       sublist visited (live entries) /\
       forall g, g ∈ registered event w' -> g ∈ visited).
Proof.
  intros Hbody. split; [|split; [|split; [|split]]].
  - intros k. apply detach_repeated.
  - reflexivity.
  - apply detach_gone.
  - intros n w Hw. split; [|split; [|split]].
    + apply detach_again, Hw.
    + intros cs Hcs. by apply run_script_keeps_detached.
    + intros e' data i. by apply forEach_keeps_detached.
    + intros evs Hevs. by apply run_keeps_detached.
  - intros Honly data w entries Hset Hlen.
    destruct (forEach_survives_detaches body Honly fuel event data 0 w entries
                Hset ltac:(lia))
      as (w' & entries' & visited & Hrun & Hset' & _ & Hc & Hsub & Hall).
    exists w', visited. rewrite drop_0 in Hsub.
    repeat split; try done.
    intros g Hg. unfold registered in Hg. rewrite Hset' in Hg.
    apply list_elem_of_omap in Hg as (x & Hx & Hid). simpl in Hid. subst x.
    apply list_elem_of_lookup_1 in Hx as [j Hj].
    apply (Hall j g); [lia | done].
Qed.

Lemma handler_1_never_subscribes h' data :
  CallOn "job_update" 2 ∉ handler_1_detaches h' data.
Proof.
  unfold handler_1_detaches. destruct (Nat.eqb h' 1).
  - intros Hin. apply elem_of_cons in Hin as [Hin|Hin]; [discriminate|].
    apply list_elem_of_singleton in Hin. discriminate.
  - apply not_elem_of_nil.
Defined.

Lemma handler_1_only_detaches : only_detaches handler_1_detaches.
Proof.
  intros h' data. unfold handler_1_detaches. destruct (Nat.eqb h' 1).
  - repeat constructor; eauto.
  - constructor.
Defined.

Lemma detach_is_safe_and_final_witness :
  let w := detach "job_update" 2 three_job_subscribers in
  (forall h' data, CallOn "job_update" 2 ∉ handler_1_detaches h' data) /\
  detached "job_update" 2 0
    (run handler_1_detaches 5
       [SockMessage 0 job_update_frame; Detach "job_update" 2;
        SockMessage 0 job_update_frame] w) /\
  exists w' visited,
    emit handler_1_detaches 5 (JStr "job_update") job_update_message
      three_job_subscribers = (w', Normal) /\
    calls w' = deliveries "job_update" job_update_message visited /\
    sublist visited [1; 2; 3] /\
    forall g, g ∈ registered "job_update" w' -> g ∈ visited.
Proof.
  intros w. split; [exact handler_1_never_subscribes|].
  destruct (detach_is_safe_and_final handler_1_detaches 5 "job_update" 2
              three_job_subscribers handler_1_never_subscribes)
    as (_ & _ & Hgone & Hfinal & Hdispatch).
  split.
  - destruct (Hfinal 0 w) as (_ & _ & _ & Hrun).
    + split; [exact Hgone | vm_compute; reflexivity].
    + apply Hrun. intros Hin.
      repeat (apply elem_of_cons in Hin as [Hin|Hin]; [discriminate|]).
      by apply not_elem_of_nil in Hin.
  - apply (Hdispatch handler_1_only_detaches job_update_message
             three_job_subscribers [Some 1; Some 2; Some 3]).
    + vm_compute; reflexivity.
    + simpl; lia.
Defined.

(** A detach in the middle of a dispatch: handler 1 unsubscribes itself and
    handler 2 while the set [1; 2; 3] is being walked. Handler 2 is passed
    over, handler 3 still runs, and the next message reaches handler 3
    alone. *)
Example detach_during_dispatch :
  let w1 := step handler_1_detaches 5 (SockMessage 0 job_update_frame)
              three_job_subscribers in
  let w2 := step handler_1_detaches 5 (SockMessage 0 job_update_frame) w1 in
  registered "job_update" three_job_subscribers = [1; 2; 3] /\
  calls w1 = [("job_update", 1, job_update_message);
              ("job_update", 3, job_update_message)] /\
  registered "job_update" w1 = [3] /\
  calls w2 = (calls w1 ++ [("job_update", 3, job_update_message)])%list.
Proof. vm_compute. repeat split. Qed.


(* ===================================================================== *)
(** * Further properties of the client *)
(* ===================================================================== *)

(** ** The registry as lists of subscribers *)

Lemma elem_of_live h entries : h ∈ live entries <-> Some h ∈ entries.
Proof.
  unfold live. rewrite list_elem_of_omap. split.
  - intros (x & Hx & Hid). simpl in Hid. by subst x.
  - intros Hin. by exists (Some h).
Qed.

Lemma live_app l1 l2 : live (l1 ++ l2) = (live l1 ++ live l2)%list.
Proof. unfold live. apply omap_app. Qed.

Lemma live_Set_add h entries :
  live (Set_add h entries)
  = if bool_decide (h ∈ live entries) then live entries
    else (live entries ++ [h])%list.
Proof.
  unfold Set_add.
  rewrite (bool_decide_ext (h ∈ live entries) (Some h ∈ entries))
    by apply elem_of_live.
  case_bool_decide; [done|]. by rewrite live_app.
Qed.

Lemma live_Set_delete h entries :
  live (Set_delete h entries) = filter (fun g => g <> h) (live entries).
Proof.
  induction entries as [|x rest IH]; [done|].
  change (Set_delete h (x :: rest))
    with ((if decide (x = Some h) then None else x) :: Set_delete h rest).
  destruct x as [g|].
  - destruct (decide (Some g = Some h)) as [E|E].
    + injection E as ->. rewrite live_cons_None, live_cons_Some, IH.
      rewrite filter_cons, decide_False; [done|]. by intros H'; apply H'.
    + rewrite !live_cons_Some, IH.
      rewrite filter_cons, decide_True; [done|]. congruence.
  - rewrite decide_False by done. by rewrite !live_cons_None.
Qed.

Lemma on_lookup event h w e' :
  handlers (on event h w).1 !! e'
  = if decide (event = e')
    then Some (Set_add h (default [] (handlers w !! event)))
    else handlers w !! e'.
Proof.
  unfold on. destruct (handlers w !! event) as [entries|] eqn:E; simpl.
  - rewrite E. simpl. rewrite lookup_insert. by case_decide.
  - rewrite lookup_insert_eq. simpl. rewrite insert_insert_eq, lookup_insert.
    by case_decide.
Qed.

Lemma detach_lookup event h w e' :
  handlers (detach event h w) !! e'
  = if decide (event = e')
    then Set_delete h <$> handlers w !! event
    else handlers w !! e'.
Proof.
  unfold detach. destruct (handlers w !! event) as [entries|] eqn:E; simpl.
  - rewrite lookup_insert. by case_decide.
  - case_decide; [by subst; rewrite E | done].
Qed.

Lemma registered_on event h w e' :
  registered e' (on event h w).1
  = if decide (e' = event)
    then (if bool_decide (h ∈ registered event w) then registered event w
          else (registered event w ++ [h])%list)
    else registered e' w.
Proof.
  unfold registered. rewrite on_lookup.
  destruct (decide (e' = event)) as [->|Hne].
  - rewrite decide_True by done. rewrite live_Set_add.
    by destruct (handlers w !! event).
  - by rewrite decide_False by congruence.
Qed.

Lemma registered_detach event h w e' :
  registered e' (detach event h w)
  = if decide (e' = event)
    then filter (fun g => g <> h) (registered event w)
    else registered e' w.
Proof.
  unfold registered. rewrite detach_lookup.
  destruct (decide (e' = event)) as [->|Hne].
  - rewrite decide_True by done.
    destruct (handlers w !! event) as [entries|]; simpl; [|done].
    apply live_Set_delete.
  - by rewrite decide_False by congruence.
Qed.

Lemma filter_absent (h : handler) (hs : list handler) :
  h ∉ hs -> filter (fun g => g <> h) hs = hs.
Proof.
  induction hs as [|g rest IH]; intros Hnot; [done|].
  apply not_elem_of_cons in Hnot as [Hne Hrest].
  rewrite filter_cons, decide_True by congruence. by rewrite IH.
Qed.

(** X2. [on(event, h)] puts [h] last among the subscribers of [event]
    unless it is one already, in which case nothing moves; the subscribers
    of every other kind stay as they are. *)
Theorem on_subscribes_last_unless_present
    (event : string) (h : handler) (w : World) (e' : string) :
  registered e' (on event h w).1
  = if decide (e' = event)
    then (if bool_decide (h ∈ registered event w) then registered event w
          else (registered event w ++ [h])%list)
    else registered e' w.
Proof. apply registered_on. Qed.

(** X3. The detach function takes [h], and only [h], out of the subscribers
    of [event], keeping the order of the others and leaving every other
    kind alone; and subscribing then detaching comes to the same as
    detaching alone, so a handler that was not subscribed before leaves no
    trace among the subscribers. *)
Theorem detach_removes_exactly_that_handler
    (event : string) (h : handler) (w : World) (e' : string) :
  registered e' (detach event h w)
  = (if decide (e' = event)
     then filter (fun g => g <> h) (registered event w)
     else registered e' w) /\
  registered e' (detach event h (on event h w).1)
  = registered e' (detach event h w).
Proof.
  split; [apply registered_detach|].
  rewrite !registered_detach. case_decide; [|by rewrite registered_on, decide_False].
  rewrite registered_on, decide_True by done.
  case_bool_decide; [done|].
  rewrite filter_app, filter_cons, decide_False by (by intros H'; apply H').
  by rewrite filter_nil, app_nil_r.
Qed.

(** ** Properties of the registry that every step keeps *)

Section RegistryInvariant.

Variable body : handler -> JSValue -> list Cmd.
Variable Q : gmap string (list (option handler)) -> Prop.

Hypothesis on_keeps : forall e h w, Q (handlers w) -> Q (handlers (on e h w).1).
Hypothesis detach_keeps : forall e h w, Q (handlers w) -> Q (handlers (detach e h w)).

Lemma run_cmd_keeps_registry c w :
  Q (handlers w) -> Q (handlers (run_cmd c w).1).
Proof.
  intros H. destruct c as [e h|e h|ok| |]; cbn [run_cmd fst].
  - by apply on_keeps.
  - by apply detach_keeps.
  - by destruct (connect_registry ok w) as [-> _].
  - by destruct (disconnect_registry w) as [-> _].
  - exact H.
Qed.

Lemma emit_keeps_registry fuel event data w :
  Q (handlers w) -> Q (handlers (emit body fuel event data w).1).
Proof.
  apply (emit_preserves body (fun _ => True) (fun w => Q (handlers w))).
  - intros h d. by apply Forall_forall.
  - intros c w' _. apply run_cmd_keeps_registry.
  - done.
Qed.

Lemma step_keeps_registry fuel ev w :
  Q (handlers w) -> Q (handlers (step body fuel ev w)).
Proof.
  intros H. destruct ev as [ok| |e h|e h|s|s data|s|s|id ok]; cbn [step].
  - by apply (run_cmd_keeps_registry (CallConnect ok)).
  - by apply (run_cmd_keeps_registry CallDisconnect).
  - by apply on_keeps.
  - by apply detach_keeps.
  - destruct (sockets w !! s) as [[]|]; try exact H.
    unfold ws_onopen. by apply emit_keeps_registry.
  - destruct (sockets w !! s) as [[]|]; try exact H;
      apply (ws_onmessage_preserves body (fun _ => True)
               (fun w => Q (handlers w))); try done;
      try (intros h d; by apply Forall_forall);
      intros c w' _; apply run_cmd_keeps_registry.
  - destruct (sockets w !! s); [|exact H].
    unfold ws_onerror. destruct (ws w) as [s'|]; [|exact H].
    by destruct (socket_close_registry s' w) as [-> _].
  - assert (Q (handlers (ws_onclose body fuel (set_readyState s CLOSED w)).1))
      as Hclose.
    { unfold ws_onclose.
      pose proof (emit_keeps_registry fuel (JStr "connection")
                    (connection_event false) (set_readyState s CLOSED w) H) as He.
      destruct (emit body fuel (JStr "connection") (connection_event false)
                  (set_readyState s CLOSED w)) as [w1 r]. simpl in He.
      destruct r; simpl; try exact He.
      by rewrite scheduleReconnect_registry. }
    by destruct (sockets w !! s) as [[]|].
  - destruct (pending id w); [|exact H].
    unfold reconnect_callback.
    by destruct (connect_registry ok
                (with_reconnectDelay
                   (Z.min (reconnectDelay (with_reconnectTimer None
                                             (clearTimeout id w)) * 2)
                      maxReconnectDelay)
                   (with_reconnectTimer None (clearTimeout id w)))) as [-> _].
Qed.

Lemma run_keeps_registry fuel evs : forall w,
  Q (handlers w) -> Q (handlers (run body fuel evs w)).
Proof.
  induction evs as [|ev rest IH]; intros w H; [exact H|].
  simpl. apply IH. by apply step_keeps_registry.
Qed.

End RegistryInvariant.

Lemma on_keeps_nodup e h w :
  sets_nodup w -> sets_nodup (on e h w).1.
Proof.
  unfold sets_nodup. intros H e' entries. rewrite on_lookup.
  case_decide; [|apply H]. intros [= <-]. rewrite live_Set_add.
  assert (NoDup (live (default [] (handlers w !! e)))) as Hnd.
  { destruct (handlers w !! e) as [old|] eqn:E; simpl; [by eapply H|].
    constructor. }
  case_bool_decide as Hin; [exact Hnd|].
  apply NoDup_app. split; [exact Hnd|]. split; [|apply NoDup_singleton].
  intros g Hg Hg'. apply list_elem_of_singleton in Hg'. by subst.
Qed.

Lemma detach_keeps_nodup e h w :
  sets_nodup w -> sets_nodup (detach e h w).
Proof.
  unfold sets_nodup. intros H e' entries. rewrite detach_lookup.
  case_decide; [|apply H].
  destruct (handlers w !! e) as [old|] eqn:E; simpl; [|done].
  intros [= <-]. rewrite live_Set_delete. apply NoDup_filter. by eapply H.
Qed.

(** X1. In every state the client can reach, whatever its handlers do, no
    handler is subscribed twice under the same kind; subscribing one that
    is subscribed already changes nothing. *)
Theorem no_handler_is_subscribed_twice
    (body : handler -> JSValue -> list Cmd) (fuel : nat) (evs : list Event)
    (event : string) (h : handler) :
  let w := run body fuel evs initial in
  NoDup (registered event w) /\
  (on event h (on event h w).1).1 = (on event h w).1.
Proof.
  intros w. split.
  - assert (sets_nodup w) as Hnd.
    { refine (run_keeps_registry body
                (fun hs => forall e entries, hs !! e = Some entries ->
                                             NoDup (live entries))
                _ _ fuel evs initial _).
      - intros e g w'. apply on_keeps_nodup.
      - intros e g w'. apply detach_keeps_nodup.
      - intros e entries. unfold initial. cbn [handlers].
        by rewrite lookup_empty. }
    unfold registered. destruct (handlers w !! event) as [entries|] eqn:E.
    + by eapply Hnd.
    + constructor.
  - generalize w. clear w. intros w.
    unfold on at 1. rewrite on_lookup, decide_True by done. simpl.
    rewrite on_lookup, decide_True by done.
    assert (Set_add h (Set_add h (default [] (handlers w !! event)))
            = Set_add h (default [] (handlers w !! event))) as ->.
    { set (l := default [] (handlers w !! event)).
      unfold Set_add at 1. rewrite bool_decide_true; [done|].
      unfold Set_add. case_bool_decide; [done|].
      apply elem_of_app. right. apply list_elem_of_here. }
    rewrite insert_id by (by rewrite on_lookup, decide_True).
    apply with_handlers_same.
Qed.

(** ** The delays the client can hold *)

Lemma spec_delay_bounds k :
  (initialReconnectDelay <= spec_delay k <= maxReconnectDelay)%Z.
Proof.
  unfold spec_delay, initialReconnectDelay, maxReconnectDelay.
  assert (0 < 2 ^ Z.of_nat k)%Z by (apply Z.pow_pos_nonneg; lia). lia.
Qed.

Lemma on_ladder_bounds d :
  on_ladder d -> (initialReconnectDelay <= d <= maxReconnectDelay)%Z.
Proof. intros [k ->]. apply spec_delay_bounds. Qed.

Lemma on_ladder_double d :
  on_ladder d -> on_ladder (Z.min (d * 2) maxReconnectDelay).
Proof. intros [k ->]. exists (S k). apply spec_delay_double. Qed.

Lemma ladder_same_delays w w' :
  reconnectDelay w' = reconnectDelay w -> timers w' = timers w ->
  delays_on_ladder w -> delays_on_ladder w'.
Proof. unfold delays_on_ladder, pending_delays. by intros -> ->. Qed.

Lemma ladder_scheduleReconnect w :
  delays_on_ladder w -> delays_on_ladder (scheduleReconnect w).
Proof.
  unfold delays_on_ladder, pending_delays, scheduleReconnect.
  intros [Hd Ht]. destruct (reconnectTimer w); [done|]. simpl.
  split; [exact Hd|]. rewrite fmap_app. apply Forall_app. split; [exact Ht|].
  by repeat constructor.
Qed.

Lemma ladder_connect ok w :
  delays_on_ladder w -> delays_on_ladder (connect ok w).
Proof.
  intros H. unfold connect. destruct (ws_is_open w); [exact H|].
  destruct ok; [exact H|]. by apply ladder_scheduleReconnect.
Qed.

Lemma ladder_clearTimeout id w :
  delays_on_ladder w -> delays_on_ladder (clearTimeout id w).
Proof.
  unfold delays_on_ladder, pending_delays, clearTimeout. simpl.
  intros [Hd Ht]. split; [exact Hd|].
  rewrite Forall_forall in Ht. apply Forall_forall. intros d Hin.
  apply list_elem_of_fmap in Hin as (t & -> & Hin).
  apply list_elem_of_filter in Hin as [_ Hin].
  apply Ht. apply list_elem_of_fmap. by exists t.
Qed.

Lemma socket_close_delays s w :
  reconnectDelay (socket_close s w) = reconnectDelay w /\
  timers (socket_close s w) = timers w.
Proof. unfold socket_close. by destruct (sockets w !! s) as [[]|]. Qed.

Lemma ladder_disconnect w :
  delays_on_ladder w -> delays_on_ladder (disconnect w).
Proof.
  intros H. unfold disconnect.
  set (w1 := match reconnectTimer w with
             | Some id => with_reconnectTimer None (clearTimeout id w)
             | None => w
             end).
  assert (delays_on_ladder w1) as H1.
  { subst w1. destruct (reconnectTimer w) as [id|]; [|exact H].
    by apply (ladder_clearTimeout id) in H. }
  clearbody w1.
  destruct (ws w1) as [s|]; [|exact H1].
  destruct (socket_close_delays s w1) as [Hd Ht].
  by apply (ladder_same_delays w1).
Qed.

Lemma ladder_run_cmd c w :
  delays_on_ladder w -> delays_on_ladder (run_cmd c w).1.
Proof.
  intros H. destruct c as [e h|e h|ok| |]; cbn [run_cmd fst].
  - by destruct (on_writes_registry e h w) as [hs ->].
  - by destruct (detach_writes_registry e h w) as [hs ->].
  - by apply ladder_connect.
  - by apply ladder_disconnect.
  - exact H.
Qed.

Section Ladder.

Variable body : handler -> JSValue -> list Cmd.

Lemma ladder_emit fuel event data w :
  delays_on_ladder w -> delays_on_ladder (emit body fuel event data w).1.
Proof.
  apply (emit_preserves body (fun _ => True) delays_on_ladder).
  - intros h d. by apply Forall_forall.
  - intros c w' _. apply ladder_run_cmd.
  - done.
Qed.

Lemma ladder_step fuel ev w :
  delays_on_ladder w -> delays_on_ladder (step body fuel ev w).
Proof.
  intros H. destruct ev as [ok| |e h|e h|s|s data|s|s|id ok]; cbn [step].
  - by apply ladder_connect.
  - by apply ladder_disconnect.
  - by apply (ladder_run_cmd (CallOn e h)).
  - by apply (ladder_run_cmd (CallDetach e h)).
  - destruct (sockets w !! s) as [[]|]; try exact H.
    unfold ws_onopen. apply ladder_emit.
    destruct H as [_ Ht]. split; [|exact Ht]. by exists 0.
  - destruct (sockets w !! s) as [[]|]; try exact H;
      apply (ws_onmessage_preserves body (fun _ => True) delays_on_ladder);
      try done; try (intros h d; by apply Forall_forall);
      intros c w' _; apply ladder_run_cmd.
  - destruct (sockets w !! s); [|exact H].
    unfold ws_onerror. destruct (ws w) as [s'|]; [|exact H].
    destruct (socket_close_delays s' w) as [Hd Ht].
    by apply (ladder_same_delays w).
  - assert (delays_on_ladder
              (ws_onclose body fuel (set_readyState s CLOSED w)).1) as Hclose.
    { unfold ws_onclose.
      pose proof (ladder_emit fuel (JStr "connection")
                    (connection_event false) (set_readyState s CLOSED w) H) as He.
      destruct (emit body fuel (JStr "connection") (connection_event false)
                  (set_readyState s CLOSED w)) as [w1 r]. simpl in He.
      destruct r; simpl; try exact He.
      by apply ladder_scheduleReconnect. }
    by destruct (sockets w !! s) as [[]|].
  - destruct (pending id w); [|exact H].
    unfold reconnect_callback. apply ladder_connect.
    apply (ladder_clearTimeout id) in H. destruct H as [Hd Ht].
    split; [|exact Ht]. by apply on_ladder_double.
Qed.

Lemma ladder_run fuel evs : forall w,
  delays_on_ladder w -> delays_on_ladder (run body fuel evs w).
Proof.
  induction evs as [|ev rest IH]; intros w H; [exact H|].
  simpl. apply IH. by apply ladder_step.
Qed.

End Ladder.

(** X4. In every state the client can reach, whatever its handlers do, the
    delay it holds and the delay of any pending retry is the initial delay
    doubled some number of times and capped: never below 1000 ms, never
    above 30000 ms. *)
Theorem backoff_delays_stay_in_range
    (body : handler -> JSValue -> list Cmd) (fuel : nat) (evs : list Event) :
  let w := run body fuel evs initial in
  (exists k, reconnectDelay w = spec_delay k) /\
  (1000 <= reconnectDelay w <= 30000)%Z /\
  Forall (fun d => (exists k, d = spec_delay k) /\ (1000 <= d <= 30000)%Z)
         (pending_delays w).
Proof.
  intros w.
  assert (delays_on_ladder w) as [Hd Ht].
  { apply ladder_run. split; [by exists 0 | constructor]. }
  split; [exact Hd|]. split; [by apply on_ladder_bounds|].
  eapply Forall_impl; [exact Ht|].
  intros d Hdl. split; [exact Hdl | by apply on_ladder_bounds].
Qed.

(** ** [disconnect] *)

Lemma tracked_no_timer w :
  timer_tracked w -> reconnectTimer w = None -> timers w = [].
Proof.
  unfold timer_tracked. intros H E. rewrite E in H. by apply fmap_nil_inv in H.
Qed.

Lemma disconnect_fields w :
  timer_tracked w ->
  timers (disconnect w) = [] /\ reconnectTimer (disconnect w) = None /\
  ws (disconnect w) = None /\ reconnectDelay (disconnect w) = reconnectDelay w /\
  nextTimer (disconnect w) = nextTimer w /\
  sockets (disconnect w)
  = match ws w with
    | Some s => sockets (socket_close s w)
    | None => sockets w
    end.
Proof.
  intros H. unfold disconnect.
  set (w1 := match reconnectTimer w with
             | Some id => with_reconnectTimer None (clearTimeout id w)
             | None => w
             end).
  assert (timers w1 = [] /\ reconnectTimer w1 = None /\ ws w1 = ws w /\
          reconnectDelay w1 = reconnectDelay w /\ nextTimer w1 = nextTimer w /\
          sockets w1 = sockets w) as (Ht & Hr & Hws & Hd & Hn & Hs).
  { subst w1. destruct (reconnectTimer w) as [id|] eqn:E.
    - pose proof (clearTimeout_tracked id w H E) as Hc.
      repeat split. by apply (tracked_no_timer _ Hc).
    - repeat split; [by apply tracked_no_timer | done]. }
  clearbody w1. rewrite Hws. simpl.
  destruct (ws w) as [s|]; [|by rewrite Ht, Hr, Hd, Hn, Hs].
  unfold socket_close. rewrite Hs.
  destruct (sockets w !! s) as [[]|]; simpl; by rewrite ?Ht, ?Hr, ?Hd, ?Hn, ?Hs.
Qed.

(** X5. After [disconnect], in any state the client can reach: no retry is
    pending, the client holds neither a timer nor a socket, the socket it
    held is no longer open or connecting, and the registry, the record of
    invocations and the delay are untouched. *)
Theorem disconnect_cancels_retry_and_drops_socket
    (body : handler -> JSValue -> list Cmd) (fuel : nat) (evs : list Event) :
  let w := run body fuel evs initial in
  let w' := disconnect w in
  timers w' = [] /\ reconnectTimer w' = None /\ ws w' = None /\
  handlers w' = handlers w /\ calls w' = calls w /\
  reconnectDelay w' = reconnectDelay w /\
  forall s r, ws w = Some s -> sockets w' !! s = Some r ->
              r = CLOSING \/ r = CLOSED.
Proof.
  intros w w'.
  assert (timer_tracked w) as H by (by apply run_tracked).
  destruct (disconnect_fields w H) as (Ht & Hr & Hws & Hd & _ & Hs).
  destruct (disconnect_registry w) as [Hh Hc].
  repeat split; try done.
  intros s r Hw. subst w'. rewrite Hs, Hw. unfold socket_close.
  destruct (sockets w !! s) as [[]|] eqn:E; simpl.
  - rewrite list_lookup_insert_eq by (by eapply lookup_lt_Some).
    intros [= <-]. by left.
  - rewrite list_lookup_insert_eq by (by eapply lookup_lt_Some).
    intros [= <-]. by left.
  - rewrite E. intros [= <-]. by left.
  - rewrite E. intros [= <-]. by right.
  - by rewrite E.
Qed.

(** ** Reconnection that [disconnect] does not stop *)

Lemma lookup_insert_twice (socks : list ReadyState) s r1 r2 r :
  socks !! s = Some r -> <[s:=r2]> (<[s:=r1]> socks) !! s = Some r2.
Proof.
  intros H. apply list_lookup_insert_eq. rewrite length_insert.
  by eapply lookup_lt_Some.
Qed.




(** ** A status handler that throws *)

Lemma forEach_first_throws body fuel event data h rest cs : forall i w entries,
  handlers w !! event = Some entries ->
  live (drop i entries) = h :: rest ->
  body h data = Throw :: cs ->
  length entries - i < fuel ->
  forEach body fuel event data i w
  = (with_calls (calls w ++ [(event, h, data)]) w, Thrown).
Proof.
  induction fuel as [|f IH]; intros i w entries Hset Hlive Hbody Hlen; [lia|].
  simpl. rewrite Hset.
  destruct (entries !! i) as [[g|]|] eqn:Hi.
  - rewrite (drop_S _ _ _ Hi), live_cons_Some in Hlive.
    injection Hlive as -> _. unfold invoke. rewrite Hbody. reflexivity.
  - rewrite (drop_S _ _ _ Hi), live_cons_None in Hlive.
    pose proof (lookup_lt_Some _ _ _ Hi).
    apply (IH (S i) w entries); [done|done|done|lia].
  - apply lookup_ge_None in Hi. rewrite drop_ge in Hlive by lia. discriminate.
Qed.

(** X7. If the first handler subscribed to ["connection"] throws on the
    disconnect event, the close callback ends there: the handlers after it
    are not called and no retry is scheduled, so the timers are as they
    were. *)
Theorem throwing_status_handler_stops_reconnect
    (body : handler -> JSValue -> list Cmd) (fuel : nat) (w : World)
    (s : nat) (r : ReadyState) (h : handler) (rest : list handler)
    (cs : list Cmd) :
  enough fuel w ->
  registered "connection" w = h :: rest ->
  body h (connection_event false) = Throw :: cs ->
  sockets w !! s = Some r -> r <> CLOSED ->
  let w' := step body fuel (SockClose s) w in
  w' = with_calls (calls w ++ [("connection", h, connection_event false)])
         (set_readyState s CLOSED w) /\
  timers w' = timers w /\ reconnectTimer w' = reconnectTimer w.
Proof.
  intros Hfuel Hreg Hbody Hs Hr w'.
  assert (w' = with_calls (calls w ++ [("connection", h, connection_event false)])
                 (set_readyState s CLOSED w)) as ->.
  { subst w'. cbn [step]. rewrite Hs.
    assert ((ws_onclose body fuel (set_readyState s CLOSED w)).1
            = with_calls (calls w ++ [("connection", h, connection_event false)])
                (set_readyState s CLOSED w)) as Hclose.
    { unfold ws_onclose, emit. unfold registered in Hreg.
      destruct (handlers w !! "connection") as [entries|] eqn:Hset;
        [|discriminate].
      specialize (Hfuel "connection"). rewrite Hset in Hfuel. simpl in Hfuel.
      assert (live (drop 0 entries) = h :: rest) as Hlive by exact Hreg.
      assert (length entries - 0 < fuel) as Hlen by lia.
      by rewrite (forEach_first_throws body fuel "connection"
                    (connection_event false) h rest cs 0
                    (set_readyState s CLOSED w) entries Hset Hlive Hbody Hlen). }
    destruct r; try done. }
  done.
Qed.

Lemma throwing_status_handler_stops_reconnect_witness :
  let w := run handler_8_throws 5 wildcard_and_status_subscribers initial in
  let w' := step handler_8_throws 5 (SockClose 0) w in
  registered "connection" w = [8] /\ sockets w !! 0 = Some OPEN /\
  sockets w' !! 0 = Some CLOSED /\ timers w' = [] /\ reconnectTimer w' = None.
Proof.
  intros w w'.
  assert (registered "connection" w = [8]) as Hreg by (vm_compute; reflexivity).
  assert (sockets w !! 0 = Some OPEN) as Hs by (vm_compute; reflexivity).
  destruct (throwing_status_handler_stops_reconnect handler_8_throws 5 w 0 OPEN
              8 [] [] ) as (Hw' & Ht & Hr).
  - apply enough_by_computation. vm_compute; reflexivity.
  - exact Hreg.
  - reflexivity.
  - exact Hs.
  - discriminate.
  - split; [exact Hreg|]. split; [exact Hs|].
    split; [|split].
    + subst w'. rewrite Hw'. vm_compute. reflexivity.
    + subst w'. rewrite Ht. vm_compute. reflexivity.
    + subst w'. rewrite Hr. vm_compute. reflexivity.
Defined.

(** ** [connect] called again before the socket opens *)

(** X8. [connect] is held back only by an open socket. Called twice while
    nothing is open, it constructs two sockets and keeps the second; the
    first keeps its callbacks, so when both open every status subscriber is
    told twice that the link is up, and a message arriving on the first is
    dispatched like any other. Handlers are taken to be passive. *)
Theorem connect_twice_before_open
    (body : handler -> JSValue -> list Cmd) (fuel : nat) (w : World)
    (data : string) :
  passive body -> enough fuel w -> ws_is_open w = false ->
  let a := length (sockets w) in
  let w2 := connect true (connect true w) in
  let w3 := run body fuel [SockOpen a; SockOpen (S a)] w2 in
  sockets w2 = (sockets w ++ [CONNECTING; CONNECTING])%list /\
  ws w2 = Some (S a) /\
  calls w3
  = (calls w
     ++ deliveries "connection" (connection_event true)
          (registered "connection" w)
     ++ deliveries "connection" (connection_event true)
          (registered "connection" w))%list /\
  step body fuel (SockMessage a data) w3 = (ws_onmessage body fuel data w3).1.
Proof.
  intros Hp Hfuel Hopen a w2 w3.
  set (w1 := with_ws (Some a)
               (with_sockets (sockets w ++ [CONNECTING])%list w)).
  assert (connect true w = w1) as Hw1
    by (unfold connect; by rewrite Hopen).
  assert (sockets w1 !! a = Some CONNECTING) as Ha
    by (subst w1 a; simpl; by apply list_lookup_middle).
  assert (w2 = with_ws (Some (S a))
                 (with_sockets (sockets w ++ [CONNECTING; CONNECTING])%list w))
    as Hw2.
  { subst w2. rewrite Hw1.
    assert (ws_is_open w1 = false) as Hopen1.
    { unfold ws_is_open. change (ws w1) with (Some a). cbv beta iota.
      by rewrite Ha. }
    unfold connect. rewrite Hopen1. subst w1. cbn.
    rewrite length_app, <- app_assoc. simpl.
    subst a. by rewrite Nat.add_1_r. }
  assert (sockets w2 !! a = Some CONNECTING) as Ha2.
  { rewrite Hw2. simpl. by apply list_lookup_middle. }
  assert ((<[a:=OPEN]> (sockets w ++ [CONNECTING; CONNECTING])%list) !! S a
          = Some CONNECTING) as Hb.
  { rewrite list_lookup_insert_ne by lia.
    change [CONNECTING; CONNECTING] with ([CONNECTING] ++ [CONNECTING])%list.
    rewrite app_assoc. apply list_lookup_middle.
    rewrite length_app. simpl. subst a. lia. }
  assert (w3 = with_calls
                 (calls w
                  ++ deliveries "connection" (connection_event true)
                       (registered "connection" w)
                  ++ deliveries "connection" (connection_event true)
                       (registered "connection" w))
                 (with_reconnectDelay 1000
                    (set_readyState (S a) OPEN
                       (set_readyState a OPEN w2)))) as Hw3.
  { assert (forall w', handlers w' = handlers w -> enough fuel w') as Hen
      by (intros w' E; by apply (enough_same_handlers fuel w)).
    subst w3. cbn [run step]. rewrite Ha2.
    rewrite ws_onopen_passive
      by first [exact Hp | apply Hen; by rewrite Hw2].
    cbn [fst sockets with_calls with_reconnectDelay set_readyState with_sockets].
    rewrite Hw2. cbn [sockets with_ws with_sockets].
    rewrite Hb.
    rewrite ws_onopen_passive by first [exact Hp | by apply Hen].
    cbn. unfold registered. cbn. by rewrite <- app_assoc. }
  split; [by rewrite Hw2|]. split; [by rewrite Hw2|].
  split; [by rewrite Hw3|].
  cbn [step].
  assert (sockets w3 !! a = Some OPEN) as ->; [|done].
  rewrite Hw3, Hw2. cbn.
  rewrite list_lookup_insert_ne by lia.
  apply list_lookup_insert_eq. rewrite length_app. simpl. subst a. lia.
Qed.

Lemma connect_twice_before_open_witness :
  let w := run quiet 5 [On "connection" 8] initial in
  let w2 := connect true (connect true w) in
  let w3 := run quiet 5 [SockOpen 0; SockOpen 1] w2 in
  ws_is_open w = false /\
  sockets w2 = [CONNECTING; CONNECTING] /\ ws w2 = Some 1 /\
  calls w3 = [("connection", 8, connection_event true);
              ("connection", 8, connection_event true)].
Proof.
  intros w w2 w3. split; [reflexivity|].
  destruct (connect_twice_before_open quiet 5 w "null") as (Hs & Hws & Hc & _).
  - exact quiet_passive.
  - apply enough_by_computation. vm_compute; reflexivity.
  - reflexivity.
  - split; [exact Hs|]. split; [exact Hws|].
    refine (eq_trans Hc _). vm_compute. reflexivity.
Defined.

(* ===================================================================== *)
(** * Properties of the fetchers *)
(* ===================================================================== *)

Lemma get_prop_None v name : get_prop v name = None <-> is_nullish v = true.
Proof. destruct v; simpl; split; intros H; congruence. Qed.

Lemma get_prop_field v name :
  is_nullish v = false -> get_prop v name = Some (field name v).
Proof. unfold field. destruct v; simpl; intros H; congruence. Qed.

Lemma nullish_default a b : is_nullish b = false -> is_nullish (nullish a b) = false.
Proof. by destruct a. Qed.

Lemma nullish_keeps a b : is_nullish a = false -> nullish a b = a.
Proof. by destruct a. Qed.


(** ** [fetchAnalytics] *)



Lemma popular_query_shaped q item :
  popular_query q = Some item -> popular_shaped item.
Proof.
  unfold popular_query. intros H.
  destruct (get_prop q "query_text") as [qt|]; [|discriminate].
  destruct (get_prop q "query") as [qq|]; [|discriminate].
  destruct (get_prop q "count") as [c|]; [|discriminate].
  simpl in H. injection H as <-.
  eexists _, _. split; [reflexivity|]. split; by apply nullish_default.
Qed.

Lemma response_time_bucket_shaped r item :
  response_time_bucket r = Some item -> bucket_shaped item.
Proof.
  unfold response_time_bucket. intros H.
  destruct (get_prop r "bucket") as [b|]; [|discriminate].
  destruct (get_prop r "range") as [rg|]; [|discriminate].
  destruct (get_prop r "count") as [c|]; [|discriminate].
  destruct (get_prop r "percentage") as [pg|]; [|discriminate].
  destruct (get_prop r "percent") as [pc|]; [|discriminate].
  simpl in H. injection H as <-.
  eexists _, _, _. split; [reflexivity|]. repeat split; by apply nullish_default.
Qed.

Lemma popular_query_fixed item :
  popular_shaped item -> popular_query item = Some item.
Proof.
  intros (q & c & -> & Hq & Hc). unfold popular_query. simpl.
  by rewrite (nullish_keeps q), (nullish_keeps c).
Qed.

Lemma response_time_bucket_fixed item :
  bucket_shaped item -> response_time_bucket item = Some item.
Proof.
  intros (r & c & p & -> & Hr & Hc & Hp). unfold response_time_bucket. simpl.
  by rewrite (nullish_keeps r), (nullish_keeps c), (nullish_keeps p).
Qed.

Lemma mapM_shaped (f : JSValue -> option JSValue) (P : JSValue -> Prop) :
  (forall x y, f x = Some y -> P y) ->
  forall l k, mapM f l = Some k -> Forall P k.
Proof.
  intros Hf l k Hm. apply mapM_Some in Hm.
  induction Hm as [|x y l k Hxy _ IH]; constructor; eauto.
Qed.

Lemma mapM_fixed (f : JSValue -> option JSValue) (P : JSValue -> Prop) :
  (forall y, P y -> f y = Some y) ->
  forall k, Forall P k -> mapM f k = Some k.
Proof.
  intros Hf k Hk. apply mapM_Some.
  induction Hk as [|y k Hy _ IH]; constructor; eauto.
Qed.



Lemma fetchAnalytics_shaped data out :
  fetchAnalytics data = Some out -> analytics_shaped out.
Proof.
  unfold fetchAnalytics. intros H.
  destruct (is_nullish data) eqn:N.
  { apply (get_prop_None data "query_trend") in N. by rewrite N in H. }
  rewrite !(get_prop_field data) in H by done. simpl in H.
  destruct (Array_map popular_query
              (nullish (field "popular_queries" data) (JArr [])))
    as [pq|] eqn:Hpq; [|discriminate]. simpl in H.
  destruct (Array_map response_time_bucket
              (nullish (field "response_time_distribution" data) (JArr [])))
    as [rt|] eqn:Hrt; [|discriminate]. simpl in H.
  injection H as <-.
  unfold Array_map in Hpq, Hrt.
  destruct (nullish (field "popular_queries" data) (JArr []))
    as [| | | | |pitems|]; try discriminate.
  destruct (nullish (field "response_time_distribution" data) (JArr []))
    as [| | | | |ritems|]; try discriminate.
  destruct (mapM popular_query pitems) as [pq'|] eqn:Hp; [|discriminate].
  destruct (mapM response_time_bucket ritems) as [rt'|] eqn:Hr; [|discriminate].
  simpl in Hpq, Hrt. injection Hpq as <-. injection Hrt as <-.
  eexists _, pq', rt', _, _. split; [reflexivity|].
  split; [by apply nullish_default|].
  split; [by eapply mapM_shaped; [apply popular_query_shaped|]|].
  split; [by eapply mapM_shaped; [apply response_time_bucket_shaped|]|].
  split; by apply nullish_default.
Qed.

Lemma fetchAnalytics_fixed out :
  analytics_shaped out -> fetchAnalytics out = Some out.
Proof.
  intros (qt & pq & rt & dt & sm & -> & Hqt & Hpq & Hrt & Hdt & Hsm).
  unfold fetchAnalytics. simpl.
  rewrite (mapM_fixed popular_query popular_shaped popular_query_fixed pq Hpq).
  simpl.
  rewrite (mapM_fixed response_time_bucket bucket_shaped
             response_time_bucket_fixed rt Hrt).
  simpl.
  by rewrite (nullish_keeps qt), (nullish_keeps dt), (nullish_keeps sm).
Qed.

(** X10. Whatever [fetchAnalytics] returns has the five fields the pages
    read: the two normalised lists are arrays of objects with exactly the
    fields [query], [count] and [range], [count], [percent], and no field,
    at either level, is [null] or [undefined]. *)
Theorem fetchAnalytics_result_is_complete (data out : JSValue) :
  fetchAnalytics data = Some out -> analytics_shaped out.
Proof. apply fetchAnalytics_shaped. Qed.

(** X11. [fetchAnalytics] normalises once and for all: applied to its own
    result, or to any response already in the front end's shape, it returns
    it unchanged. *)
Theorem fetchAnalytics_is_idempotent (data out : JSValue) :
  fetchAnalytics data = Some out ->
  fetchAnalytics out = Some out /\
  forall shaped, analytics_shaped shaped -> fetchAnalytics shaped = Some shaped.
Proof.
  intros H. split.
  - by apply fetchAnalytics_fixed, (fetchAnalytics_shaped data).
  - apply fetchAnalytics_fixed.
Qed.


Lemma fetchAnalytics_result_is_complete_witness :
  fetchAnalytics backend_analytics = Some normalised_analytics /\
  analytics_shaped normalised_analytics.
Proof.
  assert (fetchAnalytics backend_analytics = Some normalised_analytics) as H
    by (vm_compute; reflexivity).
  split; [exact H|].
  exact (fetchAnalytics_result_is_complete backend_analytics
           normalised_analytics H).
Defined.

Lemma fetchAnalytics_is_idempotent_witness :
  fetchAnalytics backend_analytics = Some normalised_analytics /\
  fetchAnalytics normalised_analytics = Some normalised_analytics.
Proof.
  assert (fetchAnalytics backend_analytics = Some normalised_analytics) as H
    by (vm_compute; reflexivity).
  split; [exact H|].
  exact (proj1 (fetchAnalytics_is_idempotent backend_analytics
                  normalised_analytics H)).
Defined.

Example fetchAnalytics_of_empty_body :
  fetchAnalytics (JObj [])
  = Some (JObj [("query_trend", JArr []); ("popular_queries", JArr []);
                ("response_time_distribution", JArr []);
                ("document_types", JArr []);
                ("summary", default_summary JUndefined)]) /\
  fetchAnalytics JNull = None /\
  fetchAnalytics (JObj [("popular_queries", JArr [JNull])]) = None /\
  fetchAnalytics (JObj [("popular_queries", JObj [])]) = None.
Proof. vm_compute. repeat split. Qed.

(* ===================================================================== *)
(** * Properties of the text helpers and the pages *)
(* ===================================================================== *)

(** ** [truncate] *)

Lemma truncate_short (str : list code_unit) (n : Z) :
  (Z.of_nat (length str) <= n)%Z -> truncate str n = str.
Proof.
  intros H. unfold truncate.
  by rewrite (proj2 (Z.leb_le _ _) H).
Qed.

Lemma truncate_long (str : list code_unit) (n : Z) :
  (0 <= n < Z.of_nat (length str))%Z ->
  truncate str n = (take (Z.to_nat n) str ++ ellipsis)%list.
Proof.
  intros H. unfold truncate, slice0.
  rewrite (proj2 (Z.leb_gt _ _)) by lia.
  rewrite (proj2 (Z.ltb_ge _ _)) by lia.
  by rewrite Z.min_l by lia.
Qed.

(** X13. For a limit that is not negative, [truncate] keeps a string within
    the limit as it is and otherwise keeps its first [length] units and
    appends three dots. The result agrees with the string on the first
    [length] units, never has more than [length + 3] units, and is longer
    than the string it was given exactly when that string is one or two
    units over the limit. *)
Theorem truncate_within_limit_plus_three (str : list code_unit) (n : Z) :
  (0 <= n)%Z ->
  take (Z.to_nat n) (truncate str n) = take (Z.to_nat n) str /\
  (Z.of_nat (length (truncate str n)) <= n + 3)%Z /\
  (length str < length (truncate str n) <->
   (n < Z.of_nat (length str) < n + 3)%Z).
Proof.
  intros Hn.
  destruct (Z.le_gt_cases (Z.of_nat (length str)) n) as [Hle|Hgt].
  - rewrite truncate_short by done. split; [done|]. split; lia.
  - rewrite truncate_long by lia.
    assert (length (take (Z.to_nat n) str) = Z.to_nat n) as Hlen
      by (rewrite length_take; lia).
    split; [|split].
    + rewrite take_app_le by lia. rewrite take_take. f_equal. lia.
    + rewrite length_app, Hlen. simpl. lia.
    + rewrite length_app, Hlen. simpl. lia.
Qed.

(** X14. A negative limit counts from the end: [truncate] then drops the
    last [-length] units of the string (all of it, if it has no more) and
    appends three dots, and this for every string, the empty one included. *)
Theorem truncate_negative_limit (str : list code_unit) (n : Z) :
  (n < 0)%Z ->
  truncate str n = (take (length str - Z.to_nat (- n)) str ++ ellipsis)%list.
Proof.
  intros Hn. unfold truncate, slice0.
  rewrite (proj2 (Z.leb_gt _ _)) by lia.
  rewrite (proj2 (Z.ltb_lt _ _)) by lia.
  do 2 f_equal. lia.
Qed.

Lemma truncate_within_limit_plus_three_witness :
  truncate [97; 98; 99; 100]%N 3 = [97; 98; 99; 46; 46; 46]%N /\
  (4 < length (truncate [97; 98; 99; 100]%N 3) <-> (3 < 4 < 3 + 3)%Z).
Proof.
  split; [reflexivity|].
  apply (truncate_within_limit_plus_three [97; 98; 99; 100]%N 3). lia.
Defined.

Lemma truncate_negative_limit_witness :
  truncate [] (-2) = ellipsis /\
  truncate [104; 101; 108; 108; 111]%N (-2) = [104; 101; 108; 46; 46; 46]%N.
Proof.
  split.
  - rewrite (truncate_negative_limit [] (-2)) by lia. reflexivity.
  - rewrite (truncate_negative_limit [104; 101; 108; 108; 111]%N (-2)) by lia.
    reflexivity.
Defined.

(** ** The filter of the Queries page *)

Module QueriesPageFacts.
Import QueriesPage.

Lemma append_cons c (s t : string) : String c s ++ t = String c (s ++ t).
Proof. reflexivity. Qed.

Lemma append_nil (t : string) : EmptyString ++ t = t.
Proof. reflexivity. Qed.

Lemma prefix_app needle hay :
  String.prefix needle hay = true <-> exists post, hay = needle ++ post.
Proof.
  revert hay. induction needle as [|c needle IH]; intros hay.
  - split; [intros _; by exists hay | by destruct hay].
  - destruct hay as [|c' hay]; simpl.
    + split; [done | intros [post H]; discriminate].
    + destruct (ascii_dec c c') as [->|Hne].
      * rewrite IH. split; intros [post H]; exists post;
          rewrite append_cons in *; congruence.
      * split; [done | intros [post H]; rewrite append_cons in H; congruence].
Qed.

(** [includes] holds when the needle occurs somewhere in the hay. *)
Lemma includes_occurs hay needle :
  includes hay needle = true <-> exists pre post, hay = pre ++ needle ++ post.
Proof.
  induction hay as [|c hay IH].
  - change (includes EmptyString needle)
      with (String.prefix needle EmptyString || false).
    rewrite orb_false_r, prefix_app. split.
    + intros [post H]. by exists EmptyString, post.
    + intros (pre & post & H). destruct pre; [by exists post|discriminate].
  - change (includes (String c hay) needle)
      with (String.prefix needle (String c hay) || includes hay needle).
    rewrite orb_true_iff, prefix_app, IH. split.
    + intros [[post H]|(pre & post & H)].
      * by exists EmptyString, post.
      * exists (String c pre), post. by rewrite append_cons, H.
    + intros (pre & post & H). destruct pre as [|c' pre].
      * left. by exists post.
      * right. exists pre, post. rewrite append_cons in H. congruence.
Qed.

Lemma filter_twice {A} (f g : A -> bool) (l : list A) :
  List.filter f (List.filter g l) = List.filter (fun x => g x && f x) l.
Proof.
  induction l as [|x l IH]; [done|]. simpl.
  destruct (g x); simpl; [|exact IH]. destruct (f x); by rewrite IH.
Qed.

Lemma filter_same {A} (f g : A -> bool) (l : list A) :
  (forall x, f x = g x) -> List.filter f l = List.filter g l.
Proof.
  intros H. induction l as [|x l IH]; [done|]. simpl. by rewrite H, IH.
Qed.

Section FilterFacts.

Variable toLowerCase : string -> string.

Lemma keeps_splits searchTerm clientFilter q :
  keeps toLowerCase searchTerm clientFilter q
  = keeps toLowerCase searchTerm "All" q
    && keeps toLowerCase EmptyString clientFilter q.
Proof.
  unfold keeps. simpl.
  destruct (negb (is_empty searchTerm)
            && negb (includes (toLowerCase (query_text q))
                       (toLowerCase searchTerm))); [done|].
  simpl. by destruct (negb (String.eqb clientFilter "All")
                      && negb (String.eqb (client_type q) clientFilter)).
Qed.

(** X15. On the Queries page an empty search term together with the client
    ["All"] shows every query, and searching and choosing a client are
    independent: filtering by both at once gives what filtering by one and
    then by the other gives, in either order. *)
Theorem search_and_client_filters_compose
    (searchTerm clientFilter : string) (queries : list QueryLog) :
  filtered toLowerCase EmptyString "All" queries = queries /\
  filtered toLowerCase searchTerm clientFilter queries
  = filtered toLowerCase searchTerm "All"
      (filtered toLowerCase EmptyString clientFilter queries) /\
  filtered toLowerCase searchTerm clientFilter queries
  = filtered toLowerCase EmptyString clientFilter
      (filtered toLowerCase searchTerm "All" queries).
Proof.
  unfold filtered. split; [|split].
  - induction queries as [|q rest IH]; [done|].
    simpl. by rewrite IH.
  - rewrite filter_twice. apply filter_same. intros q.
    rewrite (keeps_splits searchTerm clientFilter). apply andb_comm.
  - rewrite filter_twice. apply filter_same. intros q.
    apply keeps_splits.
Qed.

End FilterFacts.

End QueriesPageFacts.

(** ** The window of the live activity chart *)

Module LiveActivityChartFacts.
Import LiveActivityChart.

Lemma shift_length p prev : length (shift p prev) = Nat.max 1 (length prev).
Proof. unfold shift. rewrite length_app, length_drop. simpl. lia. Qed.

(** Each input either leaves the chart as it is or shifts its point in and
    shows its rate. *)
Lemma feed_one_appends i c :
  feed_one i c
  = match appended_point i with
    | Some p => mkChart (shift p (data c)) (queries p)
    | None => c
    end.
Proof.
  destruct i as [clock random msg|clock random]; [|reflexivity].
  cbn [feed_one appended_point]. unfold handleUpdate.
  destruct (get_prop msg "type") as [ty|]; simpl; [|done].
  destruct ty; simpl; try done.
  destruct (String.eqb s "query_update"); [|done].
  destruct (get_prop msg "data") as [payload|]; simpl; [|done].
  by destruct (get_prop payload "queries_per_minute").
Qed.

Lemma latest_shift p d points :
  latest (Nat.max 1 (length (shift p d))) (shift p d ++ points)
  = latest (Nat.max 1 (length d)) (d ++ p :: points).
Proof.
  unfold latest. rewrite shift_length. unfold shift.
  destruct d as [|d0 d]; simpl.
  - reflexivity.
  - rewrite drop_0, <- app_assoc.
    change ([p] ++ points)%list with (p :: points).
    rewrite !length_app. cbn [length].
    replace (length d + S (length points) - S (length d))
      with (length points) by lia.
    replace (length d + S (length points) - length d)
      with (S (length points)) by lia.
    reflexivity.
Qed.

Lemma appended_cons i rest :
  appended (i :: rest)
  = match appended_point i with
    | Some p => p :: appended rest
    | None => appended rest
    end.
Proof. reflexivity. Qed.

Lemma feed_window inputs : forall c,
  data (feed inputs c)
  = latest (Nat.max 1 (length (data c))) (data c ++ appended inputs) /\
  currentRate (feed inputs c)
  = from_option queries (currentRate c) (last (appended inputs)).
Proof.
  induction inputs as [|i rest IH]; intros c.
  - unfold latest, appended. simpl. rewrite app_nil_r.
    replace (length (data c) - Nat.max 1 (length (data c))) with 0 by lia.
    by rewrite drop_0.
  - cbn [feed]. destruct (IH (feed_one i c)) as [Hdata Hrate].
    rewrite Hdata, Hrate, feed_one_appends, appended_cons.
    destruct (appended_point i) as [p|]; [|done].
    cbn [data currentRate]. split.
    + apply latest_shift.
    + rewrite last_cons. by destruct (last (appended rest)).
Qed.

(** X16. Whatever messages and ticks reach the chart, its window is the
    initial points followed by the points those inputs appended, a tick
    always one and a message one when it is a readable query update, cut to
    the last [max 1 n] of them, [n] being the initial number; and the rate
    shown is that of the last point appended, or the initial rate if there
    is none. So a window that starts with at least one point keeps its size
    for good, and one that starts empty never holds more than the latest
    point. *)
Theorem window_keeps_latest_points (inputs : list Input) (c : Chart) :
  data (feed inputs c)
  = latest (Nat.max 1 (length (data c))) (data c ++ appended inputs) /\
  currentRate (feed inputs c)
  = from_option queries (currentRate c) (last (appended inputs)) /\
  length (data c) <= length (data (feed inputs c))
                  <= Nat.max 1 (length (data c)).
Proof.
  destruct (feed_window inputs c) as [Hdata Hrate].
  split; [exact Hdata|]. split; [exact Hrate|].
  rewrite Hdata. unfold latest. rewrite length_drop, length_app. lia.
Qed.

(** Ticks alone: every tick appends its point. *)
Lemma appended_ticks ticks :
  appended ((fun t => Tick t.1 t.2) <$> ticks)
  = (fun t => mkDataPoint t.1 t.2) <$> ticks.
Proof.
  induction ticks as [|t rest IH]; [done|].
  rewrite !fmap_cons, appended_cons. cbn [appended_point]. by rewrite IH.
Qed.

(** A window of three: a tick and a query update each push the oldest point
    out; a message of another kind changes nothing. *)
Example window_of_three :
  let c := mkChart [mkDataPoint "12:00" (JNum "31"); mkDataPoint "12:01" (JNum "40");
                    mkDataPoint "12:02" (JNum "18")] (JNum "45") in
  let inputs :=
    [Tick "12:03" (JNum "52");
     Message "12:04" (JNum "27")
       (JObj [("type", JStr "query_update");
              ("data", JObj [("queries_per_minute", JNum "63")])]);
     Message "12:05" (JNum "11")
       (JObj [("type", JStr "job_update"); ("data", JNull)])] in
  feed inputs c
  = mkChart [mkDataPoint "12:02" (JNum "18"); mkDataPoint "12:03" (JNum "52");
             mkDataPoint "12:04" (JNum "63")] (JNum "63").
Proof. reflexivity. Qed.

End LiveActivityChartFacts.
